(** * SHA3-256 (src/sha3.go): a shallow embedding and its properties

    The Go program keeps a 5x5 array of [uint64] lanes, mutates it in place
    through pointer-receiver methods and indexes Go arrays and slices, which
    panic when the index is out of range.  The embedding passes the state
    explicitly and runs in a small error monad whose [Panic] outcome stands
    for a Go run-time panic; unbounded loops carry fuel and report
    [OutOfFuel] when it runs out.

    Go's [int] values (loop counters, lengths, shift amounts, the padding
    arithmetic) stay far below the range of [int] on every input the program
    can hold in memory: loop counters and indices are [nat], values that are
    subtracted or converted with [uint(..)] are [Z].  [uint64] lanes are [Z]
    with the wrap-around of each operation written out. *)

From Stdlib Require Import ZArith List Lia Bool Arith Btauto.
From Stdlib Require Import Strings.Byte.
Import ListNotations.

Local Open Scope Z_scope.

(** ** Outcomes of a Go computation *)

Inductive result (A : Type) : Type :=
| Ok (v : A)
| Panic
| OutOfFuel.

Arguments Ok {A} v.
Arguments Panic {A}.
Arguments OutOfFuel {A}.

Definition bind {A B : Type} (m : result A) (k : A -> result B) : result B :=
  match m with
  | Ok v => k v
  | Panic => Panic
  | OutOfFuel => OutOfFuel
  end.

Notation "x <- m ;; k" := (bind m (fun x => k))
  (at level 61, m at next level, right associativity).

(** [for x := lo; x < lo+n; x++ { body }] over a threaded state. *)
Fixpoint for_range {S : Type} (lo n : nat) (body : nat -> S -> result S) (s : S)
  : result S :=
  match n with
  | O => Ok s
  | Datatypes.S n' => s' <- body lo s ;; for_range (Datatypes.S lo) n' body s'
  end.

(** Indexing a slice: a panic when the index is out of range. *)
Definition index {A : Type} (l : list A) (i : nat) : result A :=
  match nth_error l i with
  | Some v => Ok v
  | None => Panic
  end.

(** Assignment [l[i] = v] to a slice element. *)
Fixpoint assign {A : Type} (l : list A) (i : nat) (v : A) : result (list A) :=
  match l, i with
  | [], _ => Panic
  | _ :: t, O => Ok (v :: t)
  | h :: t, Datatypes.S i' => t' <- assign t i' v ;; Ok (h :: t')
  end.

(** ** Constants (lines 10-38) *)

Definition B : Z := 1600.
Definition W : Z := 64.
Definition L : Z := 6.

Definition RATE : Z := 1088.
Definition CAPACITY : Z := 512.

Definition RC : list Z :=
  [ 0x0000000000000001; 0x0000000000008082; 0x800000000000808A;
    0x8000000080008000; 0x000000000000808B; 0x0000000080000001;
    0x8000000080008081; 0x8000000000008009; 0x000000000000008A;
    0x0000000000000088; 0x0000000080008009; 0x000000008000000A;
    0x000000008000808B; 0x800000000000008B; 0x8000000000008089;
    0x8000000000008003; 0x8000000000008002; 0x8000000000000080;
    0x000000000000800A; 0x800000008000000A; 0x8000000080008081;
    0x8000000000008080; 0x0000000080000001; 0x8000000080008008 ].

Definition r : list (list Z) :=
  [ [0; 36; 3; 41; 18];
    [1; 44; 10; 45; 2];
    [62; 6; 43; 15; 61];
    [28; 55; 25; 21; 56];
    [27; 20; 39; 8; 14] ].

(** ** 64-bit unsigned arithmetic *)

Definition mask64 : Z := 0xFFFFFFFFFFFFFFFF.

(** The conversion [uint(v)] of an [int]. *)
Definition to_uint (v : Z) : Z := v mod 2 ^ 64.

(** [x << s] and [x >> s] on [uint64] with an unsigned count: a count of 64
    or more leaves no bit of [x]. *)
Definition shl64 (x s : Z) : Z :=
  if 64 <=? s then 0 else Z.land (Z.shiftl x s) mask64.

Definition shr64 (x s : Z) : Z :=
  if 64 <=? s then 0 else Z.shiftr x s.

(** [^x] on [uint64]: exclusive or with the all-ones word. *)
Definition not64 (x : Z) : Z := Z.lxor mask64 x.

Definition rotl64 (x : Z) (y : Z) : Z :=
  Z.lor (shl64 x (to_uint y)) (shr64 x (to_uint (64 - y))).

(** ** The state: [struct { a [5][5]uint64 }] *)

Record arr5 (A : Type) : Type :=
  Arr5 { e0 : A; e1 : A; e2 : A; e3 : A; e4 : A }.

Arguments Arr5 {A} _ _ _ _ _.
Arguments e0 {A} _.
Arguments e1 {A} _.
Arguments e2 {A} _.
Arguments e3 {A} _.
Arguments e4 {A} _.

Definition get5 {A : Type} (v : arr5 A) (i : nat) : result A :=
  match i with
  | 0%nat => Ok (e0 v)
  | 1%nat => Ok (e1 v)
  | 2%nat => Ok (e2 v)
  | 3%nat => Ok (e3 v)
  | 4%nat => Ok (e4 v)
  | _ => Panic
  end.

Definition set5 {A : Type} (v : arr5 A) (i : nat) (x : A) : result (arr5 A) :=
  match i with
  | 0%nat => Ok (Arr5 x (e1 v) (e2 v) (e3 v) (e4 v))
  | 1%nat => Ok (Arr5 (e0 v) x (e2 v) (e3 v) (e4 v))
  | 2%nat => Ok (Arr5 (e0 v) (e1 v) x (e3 v) (e4 v))
  | 3%nat => Ok (Arr5 (e0 v) (e1 v) (e2 v) x (e4 v))
  | 4%nat => Ok (Arr5 (e0 v) (e1 v) (e2 v) (e3 v) x)
  | _ => Panic
  end.

Definition fill5 {A : Type} (x : A) : arr5 A := Arr5 x x x x x.

Record state : Type := State { a : arr5 (arr5 Z) }.

(** [s.a[x][y]] read and written. *)
Definition get (s : state) (x y : nat) : result Z :=
  row <- get5 (a s) x ;; get5 row y.

Definition set (s : state) (x y : nat) (v : Z) : result state :=
  row <- get5 (a s) x ;;
  row' <- set5 row y v ;;
  rows <- set5 (a s) x row' ;;
  Ok (State rows).

(** [new(state)]: every lane zero. *)
Definition new_state : state := State (fill5 (fill5 0)).

(** ** The step mappings (lines 50-97) *)

Definition theta (s : state) : result state :=
  let c := fill5 0 in
  let d := fill5 0 in
  c <- for_range 0 5 (fun x c =>
         v0 <- get s x 0 ;; v1 <- get s x 1 ;; v2 <- get s x 2 ;;
         v3 <- get s x 3 ;; v4 <- get s x 4 ;;
         set5 c x (Z.lxor (Z.lxor (Z.lxor (Z.lxor v0 v1) v2) v3) v4)) c ;;
  sd <- for_range 0 5 (fun x (sd : state * arr5 Z) =>
          let (s, d) := sd in
          c4 <- get5 c ((x + 4) mod 5) ;;
          c1 <- get5 c ((x + 1) mod 5) ;;
          d <- set5 d x (Z.lxor c4 (rotl64 c1 1)) ;;
          s <- for_range 0 5 (fun y s =>
                 dx <- get5 d x ;;
                 v <- get s x y ;;
                 set s x y (Z.lxor v dx)) s ;;
          Ok (s, d)) (s, d) ;;
  Ok (fst sd).

Definition rhoPi (s : state) : result state :=
  temp <- get s 1 0 ;;
  st <- for_range 0 5 (fun x st =>
          for_range 0 5 (fun y (st : state * Z) =>
            let (s, temp) := st in
            current <- get s x y ;;
            row <- index r x ;;
            off <- index row y ;;
            s <- set s x y (rotl64 temp off) ;;
            Ok (s, current)) st) (s, temp) ;;
  Ok (fst st).

Definition chi (s : state) : result state :=
  let b := fill5 (fill5 0) in
  b <- for_range 0 5 (fun x b =>
         for_range 0 5 (fun y b =>
           v <- get s x y ;;
           row <- get5 b x ;;
           row' <- set5 row y v ;;
           set5 b x row') b) b ;;
  for_range 0 5 (fun x s =>
    for_range 0 5 (fun y s =>
      rx <- get5 b x ;; bxy <- get5 rx y ;;
      r1 <- get5 b ((x + 1) mod 5) ;; b1 <- get5 r1 y ;;
      r2 <- get5 b ((x + 2) mod 5) ;; b2 <- get5 r2 y ;;
      set s x y (Z.lxor bxy (Z.land (not64 b1) b2))) s) s.

Definition iota (s : state) (round : nat) : result state :=
  rc <- index RC round ;;
  v <- get s 0 0 ;;
  set s 0 0 (Z.lxor v rc).

(** ** Keccak-f[1600] (lines 100-107) *)

Definition keccakF1600 (s : state) : result state :=
  for_range 0 24 (fun i s =>
    s <- theta s ;;
    s <- rhoPi s ;;
    s <- chi s ;;
    iota s i) s.

(** ** Bytes *)

Definition Z_of_byte (b : byte) : Z := Z.of_N (Byte.to_N b).

(** The conversion [byte(v)]: the low eight bits. *)
Definition byte_of_Z (v : Z) : byte :=
  match Byte.of_N (Z.to_N (v mod 256)) with
  | Some b => b
  | None => x00
  end.

Definition byte_or (b c : byte) : byte :=
  byte_of_Z (Z.lor (Z_of_byte b) (Z_of_byte c)).

(** ** Padding (lines 110-122)

    [%] and [/] are Go's truncated remainder and quotient; a zero divisor,
    a negative length given to [make] and an index outside the buffer
    panic. *)

Definition pad (message : list byte) (rate : Z) : result (list byte) :=
  if rate =? 0 then Panic else
  let remaining := rate - Z.rem (Z.of_nat (length message) * 8) rate in
  let remaining := if remaining =? 0 then rate else remaining in
  let padLen := Z.quot (remaining + 7) 8 in
  if padLen <? 0 then Panic else
  let padding := repeat x00 (Z.to_nat padLen) in
  padding <- assign padding 0 x06 ;;
  last <- index padding (length padding - 1) ;;
  padding <- assign padding (length padding - 1) (byte_or last x80) ;;
  Ok (message ++ padding).

(** ** The sponge (lines 125-161) *)

(** [RATE / 8], the number of bytes of a block. *)
Definition block_bytes : nat := Z.to_nat (Z.quot RATE 8).

(** Lines 135-142: one block starting at offset [i] is XORed into the state. *)
Definition absorb_block (paddedMsg : list byte) (i : nat) (s : state)
  : result state :=
  for_range 0 block_bytes (fun j s =>
    if (i + j <? length paddedMsg)%nat then
      let byteIndex := (i + j)%nat in
      let wordIndex := (j / 8)%nat in
      let bytePosition := (j mod 8)%nat in
      b <- index paddedMsg byteIndex ;;
      v <- get s (wordIndex mod 5) (wordIndex / 5) ;;
      set s (wordIndex mod 5) (wordIndex / 5)
        (Z.lxor v (shl64 (Z_of_byte b) (to_uint (Z.of_nat (bytePosition * 8)))))
    else Ok s) s.

(** Lines 133-144: [for i := 0; i < len(paddedMsg); i += RATE / 8]. *)
Fixpoint absorb (fuel : nat) (paddedMsg : list byte) (i : nat) (s : state)
  : result state :=
  if (i <? length paddedMsg)%nat then
    match fuel with
    | O => OutOfFuel
    | S fuel' =>
        s <- absorb_block paddedMsg i s ;;
        s <- keccakF1600 s ;;
        absorb fuel' paddedMsg (i + block_bytes) s
    end
  else Ok s.

(** Lines 153-156: the inner loop stops at [i = 8] or once [outIndex]
    reaches 32; past that point its body is skipped. *)
Definition squeeze_word (word : Z) (out : list byte * nat)
  : result (list byte * nat) :=
  for_range 0 8 (fun i (out : list byte * nat) =>
    let (output, outIndex) := out in
    if (outIndex <? 32)%nat then
      output <- assign output outIndex
                  (byte_of_Z (shr64 word (to_uint (Z.of_nat (i * 8))))) ;;
      Ok (output, S outIndex)
    else Ok out) out.

(** Lines 151-158: [for outIndex < 32]. *)
Fixpoint squeeze (fuel : nat) (s : state) (output : list byte)
  (outIndex wordIndex : nat) : result (list byte) :=
  if (outIndex <? 32)%nat then
    match fuel with
    | O => OutOfFuel
    | S fuel' =>
        word <- get s (wordIndex mod 5) (wordIndex / 5) ;;
        out <- squeeze_word word (output, outIndex) ;;
        squeeze fuel' s (fst out) (snd out) (S wordIndex)
    end
  else Ok output.

(** The state after the absorbing loop of [sha3_256]. *)
Definition absorbed (message : list byte) : result state :=
  paddedMsg <- pad message RATE ;;
  absorb (S (length paddedMsg)) paddedMsg 0 new_state.

Definition sha3_256 (message : list byte) : result (list byte) :=
  s <- absorbed message ;;
  squeeze 32 s (repeat x00 32) 0 0.

(** ** The standard rotate and lane-permute steps

    These are not in the program: they are the two steps of Keccak as
    the standard composes them, to be compared with [rhoPi]. *)

(** Total readers and writers of a lane, for statements about states. *)
Definition lane (s : state) (x y : nat) : Z :=
  match get s x y with
  | Ok v => v
  | _ => 0
  end.

Definition put (s : state) (x y : nat) (v : Z) : state :=
  match set s x y v with
  | Ok s' => s'
  | _ => s
  end.

Definition offset (x y : nat) : Z := nth y (nth x r []) 0.

Definition coords : list (nat * nat) := list_prod (seq 0 5) (seq 0 5).

(** Rotate: every lane is left-rotated by the offset of its own coordinates. *)
Definition rho_standard (s : state) : state :=
  fold_left (fun b xy => put b (fst xy) (snd xy)
                           (rotl64 (lane s (fst xy) (snd xy))
                                   (offset (fst xy) (snd xy))))
            coords s.

(** Lane-permute: the lane at (x, y) moves to (y, (2x + 3y) mod 5). *)
Definition pi_standard (s : state) : state :=
  fold_left (fun b xy => put b (snd xy) ((2 * fst xy + 3 * snd xy) mod 5)
                           (lane s (fst xy) (snd xy)))
            coords new_state.

Definition rhoPi_standard (s : state) : state := pi_standard (rho_standard s).

(** The sponge of [sha3_256] around the standard rotate-and-permute step;
    only the second step of a round differs from [keccakF1600]. *)
Definition keccak_standard (s : state) : result state :=
  for_range 0 24 (fun i s =>
    s <- theta s ;;
    s <- Ok (rhoPi_standard s) ;;
    s <- chi s ;;
    iota s i) s.

Fixpoint absorb_standard (fuel : nat) (paddedMsg : list byte) (i : nat)
  (s : state) : result state :=
  if (i <? length paddedMsg)%nat then
    match fuel with
    | O => OutOfFuel
    | S fuel' =>
        s <- absorb_block paddedMsg i s ;;
        s <- keccak_standard s ;;
        absorb_standard fuel' paddedMsg (i + block_bytes) s
    end
  else Ok s.

Definition sha3_256_standard (message : list byte) : result (list byte) :=
  paddedMsg <- pad message RATE ;;
  s <- absorb_standard (S (length paddedMsg)) paddedMsg 0 new_state ;;
  squeeze 32 s (repeat x00 32) 0 0.

Definition abc : list byte := [x61; x62; x63].

(** ** Vocabulary of the properties

    The definitions below are not in the program: the properties are
    stated with them. *)

(** A 64-bit unsigned value. *)
Definition word64 (x : Z) : Prop := 0 <= x < 2 ^ 64.

(** The parity of column [x] and the value XORed into it, read off a state. *)
Definition column_parity (s : state) (x : nat) : Z :=
  Z.lxor (Z.lxor (Z.lxor (Z.lxor (lane s x 0) (lane s x 1)) (lane s x 2))
                 (lane s x 3)) (lane s x 4).

Definition theta_effect (s : state) (x : nat) : Z :=
  Z.lxor (column_parity s ((x + 4) mod 5))
         (rotl64 (column_parity s ((x + 1) mod 5)) 1).

(** [rounds i n s s']: [n] rounds with indices [i], [i+1], ... lead from [s]
    to [s'], each one theta, rhoPi, chi, iota in this order. *)
Inductive rounds : nat -> nat -> state -> state -> Prop :=
| rounds_done (i : nat) (s : state) : rounds i 0 s s
| rounds_step (i n : nat) (s s1 s2 s3 s4 s' : state) :
    theta s = Ok s1 ->
    rhoPi s1 = Ok s2 ->
    chi s2 = Ok s3 ->
    iota s3 i = Ok s4 ->
    rounds (S i) n s4 s' ->
    rounds i (S n) s s'.

(** A state with a single bit set, in lane (0, 0). *)
Definition probe : state := put new_state 0 0 1.

(** Block [k] of a padded message: 136 bytes from offset [136 k]. *)
Definition block (p : list byte) (k : nat) : list byte :=
  firstn block_bytes (skipn (k * block_bytes) p).

Definition blocks_from (p : list byte) (k n : nat) : list (list byte) :=
  map (block p) (seq k n).

(** The byte at offset [j] of a block goes, shifted left by [8 (j mod 8)]
    bits, into the lane at ((j/8) mod 5, (j/8) div 5). *)
Definition xor_byte (s : state) (j : nat) (b : byte) : state :=
  let wordIndex := (j / 8)%nat in
  put s (wordIndex mod 5) (wordIndex / 5)
    (Z.lxor (lane s (wordIndex mod 5) (wordIndex / 5))
            (Z.shiftl (Z_of_byte b) (8 * Z.of_nat (j mod 8)))).

(** A full block: every offset 0, 1, ..., 135 in turn. *)
Definition xor_block (blk : list byte) (s : state) : state :=
  fold_left (fun s j => xor_byte s j (nth j blk x00)) (seq 0 136) s.

(** Block after block, the permutation once after each. *)
Fixpoint absorb_blocks (blocks : list (list byte)) (s : state) : result state :=
  match blocks with
  | [] => Ok s
  | blk :: rest => s' <- keccakF1600 (xor_block blk s) ;; absorb_blocks rest s'
  end.

(** Byte [i] of a lane, counted from the least significant one. *)
Definition lane_byte (v : Z) (i : nat) : byte :=
  byte_of_Z (Z.shiftr v (8 * Z.of_nat i)).

(** Lanes 0, 1, 2, 3 in the order of their word index, eight bytes each. *)
Definition digest_of (s : state) : list byte :=
  flat_map (fun wordIndex =>
              map (lane_byte (lane s (wordIndex mod 5) (wordIndex / 5)))
                  (seq 0 8))
           (seq 0 4).

(** The FIPS-202 SHA3-256 test vector for "abc". *)
Definition fips202_abc : list byte :=
  [ x3a; x98; x5d; xa7; x4f; xe2; x25; xb2; x04; x5c; x17; x2d; x6b; xd3; x90; xbd;
    x85; x5f; x08; x6e; x3e; x9d; x52; x5b; x46; xbf; xe2; x45; x11; x43; x15; x32 ].

(** Lane-wise combination of two arrays and of two states. *)
Definition zip5 {A B C : Type} (f : A -> B -> C) (u : arr5 A) (v : arr5 B)
  : arr5 C :=
  Arr5 (f (e0 u) (e0 v)) (f (e1 u) (e1 v)) (f (e2 u) (e2 v))
       (f (e3 u) (e3 v)) (f (e4 u) (e4 v)).

Definition xor_states (s d : state) : state :=
  State (zip5 (zip5 Z.lxor) (a s) (a d)).

(** Every lane of the state is a 64-bit unsigned value. *)
Definition state_word64 (s : state) : Prop :=
  forall x y, (x < 5)%nat -> (y < 5)%nat -> word64 (lane s x y).

(** A state that theta maps to the state whose only set bit is bit 0 of
    lane (4, 4). *)
Definition blind_spot : state :=
  State (Arr5
    (fill5 0x09AF135E26BC4D78)
    (fill5 0xEBC4D789AF135E26)
    (fill5 0x7135E26BC4D789AF)
    (fill5 0xCD789AF135E26BC4)
    (Arr5 0xDE26BC4D789AF134 0xDE26BC4D789AF134 0xDE26BC4D789AF134
          0xDE26BC4D789AF134 0xDE26BC4D789AF135)).


(** * Properties *)

(** ** Tactics *)

(** Name the 25 lanes of a state. *)
Ltac lanes s :=
  destruct s as [[[? ? ? ? ?] [? ? ? ? ?] [? ? ? ? ?] [? ? ? ? ?] [? ? ? ? ?]]].

(** Run a step mapping on named lanes, leaving the lane arithmetic alone. *)
Ltac run_step :=
  cbv -[Z.lxor Z.land Z.lor rotl64 not64 shl64 shr64 to_uint].

(** Go through the five values of an index below five. *)
Ltac upto5 x :=
  destruct x as [|[|[|[|[|?]]]]]; try (exfalso; lia).

(** ** Lane arithmetic *)

Lemma mask64_ones : mask64 = Z.ones 64.
Proof. reflexivity. Qed.

Lemma word64_high_bits (x i : Z) : word64 x -> 64 <= i -> Z.testbit x i = false.
Proof.
  intros [Hlo Hhi] Hi.
  destruct (Z.eq_dec x 0) as [->|Hne]; [apply Z.bits_0|].
  apply Z.bits_above_log2; [lia|].
  apply Z.lt_le_trans with 64; [|lia].
  apply Z.log2_lt_pow2; lia.
Qed.

Lemma word64_of_bits (x : Z) :
  0 <= x -> (forall i, 64 <= i -> Z.testbit x i = false) -> word64 x.
Proof.
  intros Hx Hb. split; [exact Hx|].
  replace x with (x mod 2 ^ 64); [apply Z.mod_pos_bound; lia|].
  rewrite <- Z.land_ones by lia.
  apply Z.bits_inj'. intros i Hi.
  rewrite Z.land_spec.
  destruct (Z_lt_le_dec i 64).
  - rewrite Z.ones_spec_low by lia. apply andb_true_r.
  - rewrite Hb by lia. reflexivity.
Qed.

Lemma to_uint_small (v : Z) : 0 <= v < 2 ^ 64 -> to_uint v = v.
Proof. intros H. unfold to_uint. apply Z.mod_small. exact H. Qed.

Lemma rotl64_bits (x n i : Z) :
  word64 x -> 0 <= n < 64 -> 0 <= i < 64 ->
  Z.testbit (rotl64 x n) i = Z.testbit x ((i - n) mod 64).
Proof.
  intros Hx Hn Hi. unfold rotl64.
  rewrite !to_uint_small by lia.
  unfold shl64, shr64.
  destruct (Z.leb_spec 64 n) as [?|_]; [lia|].
  rewrite Z.lor_spec, Z.land_spec, mask64_ones, Z.ones_spec_low by lia.
  rewrite andb_true_r, Z.shiftl_spec by lia.
  destruct (Z.leb_spec 64 (64 - n)) as [Hz|Hnz].
  - assert (n = 0) as -> by lia.
    rewrite Z.bits_0, orb_false_r, Z.sub_0_r, Z.mod_small by lia. reflexivity.
  - rewrite Z.shiftr_spec by lia.
    destruct (Z_lt_le_dec i n) as [Hlt|Hge].
    + rewrite (Z.testbit_neg_r x (i - n)) by lia.
      rewrite orb_false_l.
      replace ((i - n) mod 64) with (i + (64 - n))
        by (apply Z.mod_unique with (-1); lia).
      reflexivity.
    + rewrite (word64_high_bits x (i + (64 - n))) by (auto; lia).
      rewrite orb_false_r, Z.mod_small by lia. reflexivity.
Qed.

Lemma rotl64_word (x n : Z) : word64 x -> 0 <= n < 64 -> word64 (rotl64 x n).
Proof.
  intros Hx Hn. unfold rotl64.
  rewrite !to_uint_small by lia.
  unfold shl64, shr64.
  destruct (Z.leb_spec 64 n) as [?|_]; [lia|].
  apply word64_of_bits.
  - apply Z.lor_nonneg. split.
    + apply Z.land_nonneg. right. rewrite mask64_ones. vm_compute. discriminate.
    + destruct (64 <=? 64 - n); [lia|]. apply Z.shiftr_nonneg. apply Hx.
  - intros i Hi. rewrite Z.lor_spec, Z.land_spec, mask64_ones.
    rewrite Z.ones_spec_high by lia. rewrite andb_false_r, orb_false_l.
    destruct (64 <=? 64 - n); [apply Z.bits_0|].
    rewrite Z.shiftr_spec by lia. apply word64_high_bits; [exact Hx|lia].
Qed.

(** C10: for every 64-bit value [x], [rotl64 x 0 = x], and for every shift
    amount [n] in [0,64) [rotl64 x n] is the left rotation of [x] by [n]:
    a 64-bit value whose bit [i] is bit [(i - n) mod 64] of [x]. *)
Theorem rotl64_is_rotation (x : Z) (Hx : word64 x) :
  rotl64 x 0 = x /\
  forall n, 0 <= n < 64 ->
    word64 (rotl64 x n) /\
    forall i, 0 <= i < 64 ->
      Z.testbit (rotl64 x n) i = Z.testbit x ((i - n) mod 64).
Proof.
  split.
  - apply Z.bits_inj'. intros i Hi.
    destruct (Z_lt_le_dec i 64) as [Hlt|Hge].
    + rewrite rotl64_bits by (auto; lia).
      rewrite Z.sub_0_r, Z.mod_small by lia. reflexivity.
    + rewrite (word64_high_bits x i Hx Hge).
      apply word64_high_bits; [|exact Hge].
      apply rotl64_word; [exact Hx|lia].
  - intros n Hn. split.
    + apply rotl64_word; assumption.
    + intros i Hi. apply rotl64_bits; assumption.
Qed.

Lemma rotl64_is_rotation_witness :
  word64 0x8000000000000001 /\
  rotl64 0x8000000000000001 0 = 0x8000000000000001 /\
  Z.testbit (rotl64 0x8000000000000001 1) 0 = true.
Proof.
  assert (H : word64 0x8000000000000001) by (unfold word64; lia).
  split; [exact H|].
  destruct (rotl64_is_rotation 0x8000000000000001 H) as [H0 Hn].
  split; [exact H0|].
  destruct (Hn 1 ltac:(lia)) as [_ Hb].
  rewrite (Hb 0 ltac:(lia)). reflexivity.
Defined.

(** ** The step mappings *)

(** C6: theta always returns; lane (x, y) of its result is the lane of the
    state it was given XORed with D[x] = C[(x+4) mod 5] xor
    rotl64(C[(x+1) mod 5], 1), every C[x] being the XOR of the five lanes of
    column x of the state it was given. *)
Theorem theta_columns (s : state) :
  exists s', theta s = Ok s' /\
    forall x y, (x < 5)%nat -> (y < 5)%nat ->
      lane s' x y = Z.lxor (lane s x y) (theta_effect s x).
Proof.
  lanes s. eexists. split.
  - run_step. reflexivity.
  - intros x y Hx Hy. upto5 x; upto5 y; reflexivity.
Qed.

Lemma theta_columns_witness :
  exists s', theta probe = Ok s' /\ lane s' 1 3 = 1 /\ lane s' 4 2 = 2.
Proof.
  destruct (theta_columns probe) as (s' & Hs & Hlanes).
  exists s'. split; [exact Hs|].
  split; rewrite Hlanes by lia; reflexivity.
Defined.

(** C7: chi always returns; lane (x, y) of its result is
    A[x][y] xor ((not A[(x+1) mod 5][y]) and A[(x+2) mod 5][y]) with the three
    operands read from the state it was given. *)
Theorem chi_from_snapshot (s : state) :
  exists s', chi s = Ok s' /\
    forall x y, (x < 5)%nat -> (y < 5)%nat ->
      lane s' x y =
      Z.lxor (lane s x y)
             (Z.land (not64 (lane s ((x + 1) mod 5) y))
                     (lane s ((x + 2) mod 5) y)).
Proof.
  lanes s. eexists. split.
  - run_step. reflexivity.
  - intros x y Hx Hy. upto5 x; upto5 y; reflexivity.
Qed.

Lemma chi_from_snapshot_witness :
  exists s', chi (put probe 1 0 3) = Ok s' /\ lane s' 4 0 = 2 /\ lane s' 3 0 = 1.
Proof.
  destruct (chi_from_snapshot (put probe 1 0 3)) as (s' & Hs & Hlanes).
  exists s'. split; [exact Hs|].
  split; rewrite Hlanes by lia; reflexivity.
Defined.

(** C8: for a round index below 24, iota returns; lane (0,0) of its result
    is the old lane XORed with RC[round] and the other 24 lanes are those of
    the state it was given. *)
Theorem iota_lane00 (s : state) (round : nat) (Hround : (round < 24)%nat) :
  exists rc s', index RC round = Ok rc /\ iota s round = Ok s' /\
    lane s' 0 0 = Z.lxor (lane s 0 0) rc /\
    forall x y, (x < 5)%nat -> (y < 5)%nat -> (x, y) <> (0%nat, 0%nat) ->
      lane s' x y = lane s x y.
Proof.
  lanes s.
  do 24 (destruct round as [|round];
         [ do 2 eexists; split; [reflexivity|]; split; [run_step; reflexivity|];
           split; [reflexivity|];
           intros x y Hx Hy Hxy; upto5 x; upto5 y;
           solve [reflexivity | exfalso; apply Hxy; reflexivity] | ]).
  exfalso; lia.
Qed.

Lemma iota_lane00_witness :
  exists s', iota new_state 23 = Ok s' /\
    lane s' 0 0 = 0x8000000080008008 /\ lane s' 0 1 = 0 /\ lane s' 4 4 = 0.
Proof.
  destruct (iota_lane00 new_state 23 ltac:(lia)) as (rc & s' & Hrc & Hs & H00 & Hrest).
  exists s'. split; [exact Hs|].
  injection Hrc as <-.
  split; [exact H00|].
  split; apply Hrest; solve [lia | discriminate].
Defined.

Lemma theta_runs (s : state) : exists s', theta s = Ok s'.
Proof. lanes s. eexists. run_step. reflexivity. Qed.

Lemma rhoPi_runs (s : state) : exists s', rhoPi s = Ok s'.
Proof. lanes s. eexists. run_step. reflexivity. Qed.

Lemma chi_runs (s : state) : exists s', chi s = Ok s'.
Proof. lanes s. eexists. run_step. reflexivity. Qed.

Lemma iota_runs (s : state) (round : nat) :
  (round < 24)%nat -> exists s', iota s round = Ok s'.
Proof.
  intros H. lanes s.
  do 24 (destruct round as [|round]; [eexists; run_step; reflexivity|]).
  exfalso; lia.
Qed.

(** ** The permutation *)

Lemma rounds_run (n i : nat) (s : state) :
  (i + n <= 24)%nat ->
  exists s',
    for_range i n (fun i s =>
      s <- theta s ;; s <- rhoPi s ;; s <- chi s ;; iota s i) s = Ok s' /\
    rounds i n s s'.
Proof.
  revert i s. induction n as [|n IH]; intros i s Hi.
  - exists s. split; [reflexivity|constructor].
  - destruct (theta_runs s) as [s1 H1].
    destruct (rhoPi_runs s1) as [s2 H2].
    destruct (chi_runs s2) as [s3 H3].
    destruct (iota_runs s3 i ltac:(lia)) as [s4 H4].
    destruct (IH (S i) s4 ltac:(lia)) as (s' & Hrun & Hrounds).
    exists s'. split.
    + cbn [for_range]. rewrite H1. cbn [bind]. rewrite H2. cbn [bind].
      rewrite H3. cbn [bind]. rewrite H4. cbn [bind]. exact Hrun.
    + econstructor; eassumption.
Qed.

(** C9: on every state keccakF1600 returns a state (no panic, no early
    exit), reached by exactly 24 rounds with round indices 0, 1, ..., 23,
    each round being theta, rhoPi, chi, iota in this order. *)
Theorem keccakF1600_24_rounds (s : state) :
  exists s', keccakF1600 s = Ok s' /\ rounds 0 24 s s'.
Proof. apply rounds_run. lia. Qed.

Lemma keccakF1600_runs (s : state) : exists s', keccakF1600 s = Ok s'.
Proof.
  destruct (rounds_run 24 0 s ltac:(lia)) as (s' & H & _).
  exists s'. exact H.
Qed.

(** ** rhoPi against the standard rotate and lane-permute steps *)

(** The standard steps do what their names say: the lane that started at
    (x, y) ends at (y, (2x + 3y) mod 5), rotated by the offset of (x, y). *)
Lemma rhoPi_standard_lane (s : state) (x y : nat) :
  (x < 5)%nat -> (y < 5)%nat ->
  lane (rhoPi_standard s) y ((2 * x + 3 * y) mod 5) =
  rotl64 (lane s x y) (offset x y).
Proof. intros Hx Hy. lanes s. upto5 x; upto5 y; reflexivity. Qed.

(** X12: what [rhoPi] does on every state: it walks the lanes in the order of the
    loops, x outermost, and gives each lane the value its predecessor in
    that order had, rotated by the offset of the receiving lane; the first
    lane receives the old lane (1, 0). *)
Lemma rhoPi_loop_order (s : state) :
  exists s', rhoPi s = Ok s' /\
    lane s' 0 0 = rotl64 (lane s 1 0) (offset 0 0) /\
    forall k, (1 <= k < 25)%nat ->
      lane s' (k / 5) (k mod 5) =
      rotl64 (lane s ((k - 1) / 5) ((k - 1) mod 5)) (offset (k / 5) (k mod 5)).
Proof.
  lanes s. eexists. split; [run_step; reflexivity|].
  split; [reflexivity|].
  intros k Hk.
  do 25 (destruct k as [|k]; [first [exfalso; lia | reflexivity]|]).
  exfalso; lia.
Qed.

(** C2: on the state whose only set bit is bit 0 of lane (0,0), rhoPi
    returns a state that differs from the standard rotate-then-permute
    result: the standard steps leave that lane where it is (offset 0,
    (0,0) maps to (0,0)), rhoPi moves it to lane (0,1) rotated by 36. *)
Theorem rhoPi_not_standard :
  exists s', rhoPi probe = Ok s' /\
    lane s' 0 0 = 0 /\ lane s' 0 1 = 2 ^ 36 /\
    lane (rhoPi_standard probe) 0 0 = 1 /\
    lane (rhoPi_standard probe) 0 1 = 0 /\
    s' <> rhoPi_standard probe.
Proof.
  eexists. split; [vm_compute; reflexivity|].
  repeat split; try reflexivity.
  vm_compute. discriminate.
Qed.

(** ** The digest of "abc" *)

(** With the standard rotate-and-permute step in place of [rhoPi], the
    sponge of the program yields the test vector. *)
Lemma sha3_256_standard_abc : sha3_256_standard abc = Ok fips202_abc.
Proof. vm_compute. reflexivity. Qed.

(** C1: sha3_256 applied to the three bytes of "abc" returns 32 bytes
    whose hex rendering is
    b88996b7e3b5057ab9d6891f11ecc321c101005569d5e46cb3800f5e3026f303,
    not the FIPS-202 vector 3a985da7...1532. *)
Theorem sha3_256_abc_digest :
  sha3_256 abc =
  Ok [ xb8; x89; x96; xb7; xe3; xb5; x05; x7a; xb9; xd6; x89; x1f; x11; xec; xc3; x21;
       xc1; x01; x00; x55; x69; xd5; xe4; x6c; xb3; x80; x0f; x5e; x30; x26; xf3; x03 ] /\
  sha3_256 abc <> Ok fips202_abc.
Proof.
  split; [vm_compute; reflexivity|].
  vm_compute. discriminate.
Qed.

(** ** Padding *)

Section SliceLemmas.
Context {A : Type}.

Lemma index_app_last (l : list A) (v : A) : index (l ++ [v]) (length l) = Ok v.
Proof.
  unfold index. rewrite nth_error_app2 by lia.
  rewrite Nat.sub_diag. reflexivity.
Qed.

Lemma assign_app_last (l : list A) (v w : A) :
  assign (l ++ [v]) (length l) w = Ok (l ++ [w]).
Proof.
  induction l as [|h t IH]; [reflexivity|].
  cbn [app length assign]. rewrite IH. reflexivity.
Qed.

Lemma repeat_snoc (v : A) (n : nat) : repeat v (S n) = repeat v n ++ [v].
Proof.
  induction n as [|n IH]; [reflexivity|].
  change (repeat v (S (S n))) with (v :: repeat v (S n)).
  rewrite IH at 1. reflexivity.
Qed.
End SliceLemmas.

(** The padding buffer after lines 117-119, for a buffer of [k >= 1] bytes. *)
Lemma pad_buffer (k : nat) :
  (1 <= k)%nat ->
  exists padding,
    (padding <- assign (repeat x00 k) 0 x06 ;;
     last <- index padding (length padding - 1) ;;
     assign padding (length padding - 1) (byte_or last x80)) = Ok padding /\
    length padding = k /\
    ((k = 1%nat /\ padding = [x86]) \/
     ((2 <= k)%nat /\ padding = x06 :: repeat x00 (k - 2) ++ [x80])).
Proof.
  intros Hk.
  destruct k as [|[|j]]; [lia| |].
  - exists [x86]. split; [reflexivity|]. split; [reflexivity|]. left. auto.
  - exists (x06 :: repeat x00 j ++ [x80]).
    split; [|split].
    + change (repeat x00 (S (S j))) with (x00 :: repeat x00 (S j)).
      rewrite repeat_snoc.
      change (assign (x00 :: repeat x00 j ++ [x00]) 0 x06)
        with (Ok ((x06 :: repeat x00 j) ++ [x00])).
      cbn [bind].
      replace (length ((x06 :: repeat x00 j) ++ [x00]) - 1)%nat
        with (length (x06 :: repeat x00 j))
        by (rewrite length_app; cbn [length]; lia).
      rewrite index_app_last. cbn [bind].
      rewrite assign_app_last. reflexivity.
    + cbn [length]. rewrite length_app, repeat_length. cbn [length]. lia.
    + right. split; [lia|].
      replace (S (S j) - 2)%nat with j by lia. reflexivity.
Qed.

(** [pad m 1088]: the message, then [136 - len m mod 136] bytes of padding. *)
Lemma pad_rate_shape (m : list byte) :
  exists padding : list byte,
    pad m 1088 = Ok (m ++ padding) /\
    Z.of_nat (length padding) = 136 - Z.of_nat (length m) mod 136 /\
    ((length padding = 1%nat /\ padding = [x86]) \/
     ((2 <= length padding)%nat /\
      padding = x06 :: repeat x00 (length padding - 2) ++ [x80])).
Proof.
  set (n := Z.of_nat (length m)).
  assert (Hn : 0 <= n) by (unfold n; lia).
  set (q := n mod 136).
  assert (Hq : 0 <= q < 136) by (unfold q; apply Z.mod_pos_bound; lia).
  assert (Hbits : (n * 8) mod 1088 = 8 * q).
  { unfold q. rewrite (Z.mul_comm n 8). change 1088 with (8 * 136).
    rewrite Z.mul_mod_distr_l by lia. reflexivity. }
  assert (Hquot : Z.quot (1088 - 8 * q + 7) 8 = 136 - q).
  { rewrite Z.quot_div_nonneg by lia.
    symmetry. apply Z.div_unique with 7; lia. }
  destruct (pad_buffer (Z.to_nat (136 - q)) ltac:(lia))
    as (padding & Hrun & Hlen & Hshape).
  exists padding. split; [|split].
  - unfold pad. cbn [Z.eqb]. fold n.
    rewrite Z.rem_mod_nonneg by lia.
    rewrite Hbits.
    destruct (Z.eqb_spec (1088 - 8 * q) 0) as [?|_]; [lia|].
    rewrite Hquot.
    destruct (Z.ltb_spec (136 - q) 0) as [?|_]; [lia|].
    destruct (assign (repeat x00 (Z.to_nat (136 - q))) 0 x06)
      as [p1| |]; cbn [bind] in *; try discriminate.
    destruct (index p1 (length p1 - 1)) as [l1| |]; cbn [bind] in *;
      try discriminate.
    rewrite Hrun. reflexivity.
  - rewrite Hlen. lia.
  - rewrite Hlen. exact Hshape.
Qed.

(** C3: for every message [m], [pad m 1088] returns [m] followed by a
    buffer of [padLen] bytes, [padLen] being the ceiling of [remaining / 8]
    for [remaining = 1088 - (8 * len m mod 1088)] (1088 in place of 0); the
    buffer is 0x06, zeros, 0x80, or the single byte 0x86 when [padLen = 1];
    the bit length of the result is a multiple of 1088; a message of 135
    bytes pads to 136 bytes, one of 136 or 137 bytes to 272 bytes. *)
Theorem pad_rate_multiple (m : list byte) :
  let bits := 8 * Z.of_nat (length m) in
  let remaining :=
    if 1088 - bits mod 1088 =? 0 then 1088 else 1088 - bits mod 1088 in
  exists (padding : list byte) (padLen : nat),
    pad m 1088 = Ok (m ++ padding) /\
    length padding = padLen /\
    8 * (Z.of_nat padLen - 1) < remaining <= 8 * Z.of_nat padLen /\
    ((padLen = 1%nat /\ padding = [x86]) \/
     ((2 <= padLen)%nat /\ padding = x06 :: repeat x00 (padLen - 2) ++ [x80])) /\
    (8 * Z.of_nat (length (m ++ padding))) mod 1088 = 0 /\
    (length m = 135%nat -> length (m ++ padding) = 136%nat) /\
    (length m = 136%nat -> length (m ++ padding) = 272%nat) /\
    (length m = 137%nat -> length (m ++ padding) = 272%nat).
Proof.
  intros bits remaining.
  destruct (pad_rate_shape m) as (padding & Hpad & Hlen & Hshape).
  set (n := Z.of_nat (length m)) in *.
  assert (Hn : 0 <= n) by (unfold n; lia).
  set (q := n mod 136) in *.
  assert (Hq : 0 <= q < 136) by (unfold q; apply Z.mod_pos_bound; lia).
  assert (Hrem : remaining = 1088 - 8 * q).
  { unfold remaining, bits, q. change 1088 with (8 * 136).
    rewrite Z.mul_mod_distr_l by lia. fold q.
    destruct (Z.eqb_spec (8 * 136 - 8 * q) 0); [lia|reflexivity]. }
  assert (Htotal : Z.of_nat (length (m ++ padding)) = n + 136 - q).
  { rewrite length_app. fold n. lia. }
  exists padding, (length padding).
  split; [exact Hpad|].
  split; [reflexivity|].
  split; [rewrite Hrem; lia|].
  split; [exact Hshape|].
  split.
  { rewrite Htotal. unfold q.
    pose proof (Z.div_mod n 136 ltac:(lia)) as Hdm.
    replace (8 * (n + 136 - n mod 136)) with ((n / 136 + 1) * 1088) by lia.
    apply Z.mod_mul. lia. }
  assert (Hcase : forall k r : Z, n = k -> k mod 136 = r ->
            length (m ++ padding) = Z.to_nat (k + 136 - r)).
  { intros k r Hk Hr. unfold q in Htotal. rewrite Hk, Hr in Htotal. lia. }
  repeat split; intros Hm.
  - apply (Hcase 135 135); [unfold n; lia|reflexivity].
  - apply (Hcase 136 0); [unfold n; lia|reflexivity].
  - apply (Hcase 137 1); [unfold n; lia|reflexivity].
Qed.

Lemma pad_rate_multiple_witness :
  (exists p, pad (repeat x00 135) 1088 = Ok p /\ length p = 136%nat) /\
  (exists p, pad (repeat x01 136) 1088 = Ok p /\ length p = 272%nat) /\
  (exists p, pad (repeat x02 137) 1088 = Ok p /\ length p = 272%nat).
Proof.
  split; [|split].
  - destruct (pad_rate_multiple (repeat x00 135))
      as (padding & k & Hp & _ & _ & _ & _ & H135 & _ & _).
    eexists. split; [exact Hp|]. apply H135. reflexivity.
  - destruct (pad_rate_multiple (repeat x01 136))
      as (padding & k & Hp & _ & _ & _ & _ & _ & H136 & _).
    eexists. split; [exact Hp|]. apply H136. reflexivity.
  - destruct (pad_rate_multiple (repeat x02 137))
      as (padding & k & Hp & _ & _ & _ & _ & _ & _ & H137).
    eexists. split; [exact Hp|]. apply H137. reflexivity.
Defined.

(** ** Absorbing *)

Lemma get_lane (s : state) (x y : nat) :
  (x < 5)%nat -> (y < 5)%nat -> get s x y = Ok (lane s x y).
Proof. intros Hx Hy. lanes s. upto5 x; upto5 y; reflexivity. Qed.

Lemma set_put (s : state) (x y : nat) (v : Z) :
  (x < 5)%nat -> (y < 5)%nat -> set s x y v = Ok (put s x y v).
Proof. intros Hx Hy. lanes s. upto5 x; upto5 y; reflexivity. Qed.

Lemma for_range_pure {S : Type} (f : nat -> S -> S)
  (body : nat -> S -> result S) (n lo : nat) (s : S) :
  (forall j t, (lo <= j < lo + n)%nat -> body j t = Ok (f j t)) ->
  for_range lo n body s = Ok (fold_left (fun t j => f j t) (seq lo n) s).
Proof.
  revert lo s. induction n as [|n IH]; intros lo s Hbody; [reflexivity|].
  cbn [for_range seq fold_left].
  rewrite Hbody by lia. cbn [bind].
  apply IH. intros j t Hj. apply Hbody. lia.
Qed.

Lemma Z_of_byte_range (b : byte) : 0 <= Z_of_byte b < 256.
Proof.
  unfold Z_of_byte. pose proof (Byte.to_N_bounded b) as H.
  lia.
Qed.

(** A byte shifted into one of the eight byte positions of a lane does not
    leave the lane. *)
Lemma shl64_byte (v : Z) (k : nat) :
  0 <= v < 256 -> (k < 8)%nat ->
  shl64 v (to_uint (Z.of_nat (k * 8))) = Z.shiftl v (8 * Z.of_nat k).
Proof.
  intros Hv Hk.
  replace (Z.of_nat (k * 8)) with (8 * Z.of_nat k) by lia.
  rewrite to_uint_small by lia.
  unfold shl64.
  destruct (Z.leb_spec 64 (8 * Z.of_nat k)) as [?|_]; [lia|].
  rewrite mask64_ones, Z.land_ones by lia.
  apply Z.mod_small.
  rewrite Z.shiftl_mul_pow2 by lia.
  split; [apply Z.mul_nonneg_nonneg; lia|].
  apply Z.lt_le_trans with (2 ^ 8 * 2 ^ (8 * Z.of_nat k)).
  - apply Z.mul_lt_mono_pos_r; [apply Z.pow_pos_nonneg; lia|].
    change (2 ^ 8) with 256. lia.
  - rewrite <- Z.pow_add_r by lia. apply Z.pow_le_mono_r; lia.
Qed.

Lemma nth_block (p : list byte) (k j : nat) :
  (j < block_bytes)%nat ->
  nth j (block p k) x00 = nth (k * block_bytes + j) p x00.
Proof.
  intros Hj. unfold block.
  rewrite nth_firstn.
  destruct (Nat.ltb_spec j block_bytes) as [_|?]; [|lia].
  apply nth_skipn.
Qed.

(** Inside a padded message of whole blocks the guard of line 136 holds
    at every offset, and the inner loop XORs the whole block. *)
Lemma absorb_block_full (p : list byte) (k : nat) (s : state) :
  ((k + 1) * block_bytes <= length p)%nat ->
  absorb_block p (k * block_bytes) s = Ok (xor_block (block p k) s).
Proof.
  intros Hlen. unfold absorb_block, xor_block.
  change block_bytes with 136%nat in *.
  apply (for_range_pure (fun j t => xor_byte t j (nth j (block p k) x00))).
  intros j t Hj.
  destruct (Nat.ltb_spec (k * 136 + j) (length p)) as [Hin|?]; [|lia].
  unfold index. rewrite (nth_error_nth' p x00 Hin). cbn [bind].
  assert (Hx : (j / 8 mod 5 < 5)%nat) by (apply Nat.mod_upper_bound; lia).
  assert (Hy : (j / 8 / 5 < 5)%nat).
  { apply Nat.Div0.div_lt_upper_bound. apply Nat.Div0.div_lt_upper_bound. lia. }
  rewrite get_lane by assumption. cbn [bind].
  rewrite set_put by assumption.
  rewrite shl64_byte
    by (try apply Z_of_byte_range; apply Nat.mod_upper_bound; lia).
  unfold xor_byte.
  rewrite nth_block by (change block_bytes with 136%nat; lia).
  reflexivity.
Qed.

Lemma absorb_run (p : list byte) (n k fuel : nat) (s : state) :
  length p = ((k + n) * block_bytes)%nat -> (n <= fuel)%nat ->
  absorb fuel p (k * block_bytes) s = absorb_blocks (blocks_from p k n) s.
Proof.
  revert k fuel s. induction n as [|n IH]; intros k fuel s Hlen Hfuel.
  - replace (k * block_bytes)%nat with (length p) by lia.
    destruct fuel; cbn [absorb]; rewrite Nat.ltb_irrefl; reflexivity.
  - destruct fuel as [|fuel]; [lia|].
    cbn [absorb]. change block_bytes with 136%nat in *.
    destruct (Nat.ltb_spec (k * 136) (length p)) as [_|?]; [|lia].
    change 136%nat with block_bytes.
    rewrite absorb_block_full by (change block_bytes with 136%nat; lia).
    cbn [bind blocks_from seq map absorb_blocks].
    destruct (keccakF1600 (xor_block (block p k) s)) as [s'| |];
      cbn [bind]; try reflexivity.
    replace (k * block_bytes + block_bytes)%nat with (S k * block_bytes)%nat
      by lia.
    apply IH; change block_bytes with 136%nat; lia.
Qed.

Lemma absorb_blocks_runs (blocks : list (list byte)) (s : state) :
  exists s', absorb_blocks blocks s = Ok s'.
Proof.
  revert s. induction blocks as [|blk rest IH]; intros s.
  - exists s. reflexivity.
  - cbn [absorb_blocks].
    destruct (keccakF1600_runs (xor_block blk s)) as [s1 H1].
    rewrite H1. cbn [bind]. apply IH.
Qed.

Lemma blocks_concat (p : list byte) (n k : nat) :
  length p = ((k + n) * block_bytes)%nat ->
  concat (blocks_from p k n) = skipn (k * block_bytes) p /\
  Forall (fun blk => length blk = 136%nat) (blocks_from p k n).
Proof.
  revert k. induction n as [|n IH]; intros k Hlen.
  - cbn [blocks_from seq map concat]. split; [|constructor].
    symmetry. apply skipn_all2. lia.
  - destruct (IH (S k) ltac:(lia)) as [Hcat Hall].
    cbn [blocks_from seq map concat]. fold (blocks_from p (S k) n).
    split.
    + rewrite Hcat. unfold block.
      replace (S k * block_bytes)%nat with (block_bytes + k * block_bytes)%nat
        by lia.
      rewrite <- skipn_skipn. apply firstn_skipn.
    + constructor; [|exact Hall].
      unfold block. rewrite length_firstn, length_skipn.
      change block_bytes with 136%nat in *. lia.
Qed.

(** The padded message is a positive number of whole blocks. *)
Lemma pad_whole_blocks (m : list byte) :
  exists (p : list byte) (n : nat),
    pad m RATE = Ok p /\ length p = (S n * block_bytes)%nat.
Proof.
  destruct (pad_rate_shape m) as (padding & Hpad & Hlen & _).
  exists (m ++ padding), (length m / 136)%nat.
  split; [exact Hpad|].
  rewrite length_app. change block_bytes with 136%nat.
  pose proof (Nat.div_mod_eq (length m) 136) as Hdm.
  assert (Hmod : Z.of_nat (length m) mod 136 = Z.of_nat (length m mod 136)).
  { rewrite Nat2Z.inj_mod. reflexivity. }
  pose proof (Nat.mod_upper_bound (length m) 136 ltac:(lia)).
  lia.
Qed.

(** C4: the padded message is a sequence of full 136-byte blocks, and the
    absorbing loop of sha3_256 returns what absorbing these blocks one
    after the other returns: for each block, every byte at offset j is
    XORed, shifted left by 8 (j mod 8), into the lane at
    ((j/8) mod 5, (j/8) div 5), and keccakF1600 runs once on the result
    before the next block.  No offset of any block is skipped. *)
Theorem absorb_full_blocks (m : list byte) :
  exists (p : list byte) (n : nat) (s : state),
    pad m RATE = Ok p /\
    (1 <= n)%nat /\
    length p = (n * 136)%nat /\
    p = concat (blocks_from p 0 n) /\
    Forall (fun blk => length blk = 136%nat) (blocks_from p 0 n) /\
    absorbed m = absorb_blocks (blocks_from p 0 n) new_state /\
    absorbed m = Ok s.
Proof.
  destruct (pad_whole_blocks m) as (p & n & Hpad & Hlen).
  destruct (blocks_concat p (S n) 0 Hlen) as [Hcat Hall].
  assert (Hrun : absorbed m = absorb_blocks (blocks_from p 0 (S n)) new_state).
  { unfold absorbed. rewrite Hpad. cbn [bind].
    apply (absorb_run p (S n) 0); [exact Hlen|].
    change block_bytes with 136%nat in Hlen. lia. }
  destruct (absorb_blocks_runs (blocks_from p 0 (S n)) new_state) as [s Hs].
  exists p, (S n), s.
  split; [exact Hpad|].
  split; [lia|].
  split; [exact Hlen|].
  split; [symmetry; exact Hcat|].
  split; [exact Hall|].
  split; [exact Hrun|].
  rewrite Hrun. exact Hs.
Qed.

(** ** Squeezing *)

Lemma squeeze_reads (s : state) :
  squeeze 32 s (repeat x00 32) 0 0 = Ok (digest_of s).
Proof. lanes s. cbv -[byte_of_Z Z.shiftr]. reflexivity. Qed.

Lemma absorb_blocks_snoc (blocks : list (list byte)) (blk : list byte)
  (s : state) :
  absorb_blocks (blocks ++ [blk]) s =
  (s0 <- absorb_blocks blocks s ;; keccakF1600 (xor_block blk s0)).
Proof.
  revert s. induction blocks as [|b rest IH]; intros s.
  - cbn [app absorb_blocks bind].
    destruct (keccakF1600 (xor_block blk s)); reflexivity.
  - cbn [app absorb_blocks].
    destruct (keccakF1600 (xor_block b s)) as [s1| |]; cbn [bind];
      [apply IH|reflexivity|reflexivity].
Qed.

(** C5: for every message, the empty one included, sha3_256 returns 32
    bytes; they are read from the state the last keccakF1600 call of the
    absorbing loop returned, with nothing applied to it in between: lanes
    of word index 0, 1, 2, 3 at ((wordIndex mod 5), (wordIndex div 5)),
    eight bytes per lane, least significant byte first. *)
Theorem sha3_256_digest (m : list byte) :
  exists (p : list byte) (n : nat) (s0 s : state) (out : list byte),
    pad m RATE = Ok p /\
    length p = (S n * 136)%nat /\
    absorb_blocks (blocks_from p 0 n) new_state = Ok s0 /\
    keccakF1600 (xor_block (block p n) s0) = Ok s /\
    absorbed m = Ok s /\
    sha3_256 m = Ok out /\
    out = digest_of s /\
    length out = 32%nat.
Proof.
  destruct (pad_whole_blocks m) as (p & n & Hpad & Hlen).
  assert (Hrun : absorbed m = absorb_blocks (blocks_from p 0 (S n)) new_state).
  { unfold absorbed. rewrite Hpad. cbn [bind].
    apply (absorb_run p (S n) 0); [exact Hlen|].
    change block_bytes with 136%nat in Hlen. lia. }
  assert (Hsplit : blocks_from p 0 (S n) = blocks_from p 0 n ++ [block p n]).
  { unfold blocks_from. rewrite seq_S, map_app. reflexivity. }
  destruct (absorb_blocks_runs (blocks_from p 0 n) new_state) as [s0 Hs0].
  destruct (keccakF1600_runs (xor_block (block p n) s0)) as [s Hs].
  assert (Habs : absorbed m = Ok s).
  { rewrite Hrun, Hsplit, absorb_blocks_snoc, Hs0. exact Hs. }
  exists p, n, s0, s, (digest_of s).
  split; [exact Hpad|].
  split; [exact Hlen|].
  split; [exact Hs0|].
  split; [exact Hs|].
  split; [exact Habs|].
  split; [unfold sha3_256; rewrite Habs; apply squeeze_reads|].
  split; reflexivity.
Qed.

(** * Further properties of the code *)

(** ** States *)

Lemma state_ext (s t : state) :
  (forall x y, (x < 5)%nat -> (y < 5)%nat -> lane s x y = lane t x y) ->
  s = t.
Proof.
  intros H. lanes s. lanes t.
  pose proof (H 0 0 ltac:(lia) ltac:(lia))%nat as H00.
  pose proof (H 0 1 ltac:(lia) ltac:(lia))%nat as H01.
  pose proof (H 0 2 ltac:(lia) ltac:(lia))%nat as H02.
  pose proof (H 0 3 ltac:(lia) ltac:(lia))%nat as H03.
  pose proof (H 0 4 ltac:(lia) ltac:(lia))%nat as H04.
  pose proof (H 1 0 ltac:(lia) ltac:(lia))%nat as H10.
  pose proof (H 1 1 ltac:(lia) ltac:(lia))%nat as H11.
  pose proof (H 1 2 ltac:(lia) ltac:(lia))%nat as H12.
  pose proof (H 1 3 ltac:(lia) ltac:(lia))%nat as H13.
  pose proof (H 1 4 ltac:(lia) ltac:(lia))%nat as H14.
  pose proof (H 2 0 ltac:(lia) ltac:(lia))%nat as H20.
  pose proof (H 2 1 ltac:(lia) ltac:(lia))%nat as H21.
  pose proof (H 2 2 ltac:(lia) ltac:(lia))%nat as H22.
  pose proof (H 2 3 ltac:(lia) ltac:(lia))%nat as H23.
  pose proof (H 2 4 ltac:(lia) ltac:(lia))%nat as H24.
  pose proof (H 3 0 ltac:(lia) ltac:(lia))%nat as H30.
  pose proof (H 3 1 ltac:(lia) ltac:(lia))%nat as H31.
  pose proof (H 3 2 ltac:(lia) ltac:(lia))%nat as H32.
  pose proof (H 3 3 ltac:(lia) ltac:(lia))%nat as H33.
  pose proof (H 3 4 ltac:(lia) ltac:(lia))%nat as H34.
  pose proof (H 4 0 ltac:(lia) ltac:(lia))%nat as H40.
  pose proof (H 4 1 ltac:(lia) ltac:(lia))%nat as H41.
  pose proof (H 4 2 ltac:(lia) ltac:(lia))%nat as H42.
  pose proof (H 4 3 ltac:(lia) ltac:(lia))%nat as H43.
  pose proof (H 4 4 ltac:(lia) ltac:(lia))%nat as H44.
  clear H. cbv in H00, H01, H02, H03, H04, H10, H11, H12, H13, H14,
    H20, H21, H22, H23, H24, H30, H31, H32, H33, H34,
    H40, H41, H42, H43, H44.
  subst. reflexivity.
Qed.

Lemma lane_put_same (s : state) (x y : nat) (v : Z) :
  (x < 5)%nat -> (y < 5)%nat -> lane (put s x y v) x y = v.
Proof. intros Hx Hy. lanes s. upto5 x; upto5 y; reflexivity. Qed.

Lemma lane_put_other_row (s : state) (x y x' y' : nat) (v : Z) :
  x <> x' -> lane (put s x y v) x' y' = lane s x' y'.
Proof.
  intros Hne. lanes s.
  destruct x as [|[|[|[|[|?]]]]]; destruct y as [|[|[|[|[|?]]]]];
    try reflexivity;
    destruct x' as [|[|[|[|[|?]]]]]; try reflexivity;
    exfalso; apply Hne; reflexivity.
Qed.

Lemma lane_put_other_col (s : state) (x y x' y' : nat) (v : Z) :
  y <> y' -> lane (put s x y v) x' y' = lane s x' y'.
Proof.
  intros Hne. lanes s.
  destruct x as [|[|[|[|[|?]]]]]; destruct y as [|[|[|[|[|?]]]]];
    try reflexivity;
    destruct x' as [|[|[|[|[|?]]]]]; try reflexivity;
    destruct y' as [|[|[|[|[|?]]]]]; try reflexivity;
    exfalso; apply Hne; reflexivity.
Qed.

(** ** 64-bit lanes stay 64-bit lanes *)

Lemma lxor_word64 (u v : Z) : word64 u -> word64 v -> word64 (Z.lxor u v).
Proof.
  intros Hu Hv. apply word64_of_bits.
  - apply Z.lxor_nonneg. unfold word64 in *. lia.
  - intros i Hi. rewrite Z.lxor_spec.
    rewrite (word64_high_bits u i Hu Hi), (word64_high_bits v i Hv Hi).
    reflexivity.
Qed.

Lemma land_word64 (u v : Z) : word64 v -> word64 (Z.land u v).
Proof.
  intros Hv. apply word64_of_bits.
  - apply Z.land_nonneg. right. apply Hv.
  - intros i Hi. rewrite Z.land_spec, (word64_high_bits v i Hv Hi).
    apply andb_false_r.
Qed.

Lemma RC_word64 (round : nat) (rc : Z) : index RC round = Ok rc -> word64 rc.
Proof.
  intros H.
  do 24 (destruct round as [|round];
         [injection H as <-; unfold word64; lia|]).
  unfold index in H. cbn [RC nth_error] in H. destruct round; discriminate.
Qed.

Lemma column_parity_word64 (s : state) (x : nat) :
  state_word64 s -> (x < 5)%nat -> word64 (column_parity s x).
Proof.
  intros Hs Hx. unfold column_parity.
  repeat apply lxor_word64; apply Hs; lia.
Qed.

Lemma theta_effect_word64 (s : state) (x : nat) :
  state_word64 s -> word64 (theta_effect s x).
Proof.
  intros Hs. unfold theta_effect. apply lxor_word64.
  - apply column_parity_word64; [exact Hs|]. apply Nat.mod_upper_bound. lia.
  - apply rotl64_word; [|lia].
    apply column_parity_word64; [exact Hs|]. apply Nat.mod_upper_bound. lia.
Qed.

(** The lanes of the result of theta (shared with the invariants below). *)
Lemma theta_lanes (s : state) :
  exists s', theta s = Ok s' /\
    forall x y, (x < 5)%nat -> (y < 5)%nat ->
      lane s' x y = Z.lxor (lane s x y) (theta_effect s x).
Proof.
  lanes s. eexists. split.
  - run_step. reflexivity.
  - intros x y Hx Hy. upto5 x; upto5 y; reflexivity.
Qed.

Lemma chi_lanes (s : state) :
  exists s', chi s = Ok s' /\
    forall x y, (x < 5)%nat -> (y < 5)%nat ->
      lane s' x y =
      Z.lxor (lane s x y)
             (Z.land (not64 (lane s ((x + 1) mod 5) y))
                     (lane s ((x + 2) mod 5) y)).
Proof.
  lanes s. eexists. split.
  - run_step. reflexivity.
  - intros x y Hx Hy. upto5 x; upto5 y; reflexivity.
Qed.

(** Every lane of the result of rhoPi is a rotation, by an offset of the
    table, of a lane of the state it was given. *)
Lemma rhoPi_lanes (s : state) :
  exists s', rhoPi s = Ok s' /\
    forall x y, (x < 5)%nat -> (y < 5)%nat ->
      exists x' y' n, (x' < 5)%nat /\ (y' < 5)%nat /\ 0 <= n < 64 /\
        lane s' x y = rotl64 (lane s x' y') n.
Proof.
  lanes s. eexists. split; [run_step; reflexivity|].
  intros x y Hx Hy.
  upto5 x; upto5 y;
    match goal with
    | |- exists x' y' n, _ /\ _ /\ _ /\ lane _ ?x ?y = _ =>
        let k := eval cbv in (5 * x + y - 1)%nat in
        let x0 := eval cbv in (match (5 * x + y)%nat with
                               | O => 1%nat | _ => (k / 5)%nat end) in
        let y0 := eval cbv in (match (5 * x + y)%nat with
                               | O => 0%nat | _ => (k mod 5)%nat end) in
        exists x0, y0, (offset x y)
    end;
    (split; [lia|]); (split; [lia|]); (split; [cbv; split; congruence|]);
    reflexivity.
Qed.

Lemma theta_word64 (s s' : state) :
  state_word64 s -> theta s = Ok s' -> state_word64 s'.
Proof.
  intros Hs Hrun x y Hx Hy.
  destruct (theta_lanes s) as (t & Ht & Hlanes).
  rewrite Ht in Hrun. injection Hrun as <-.
  rewrite Hlanes by assumption.
  apply lxor_word64; [apply Hs; assumption|apply theta_effect_word64; exact Hs].
Qed.

Lemma rhoPi_word64 (s s' : state) :
  state_word64 s -> rhoPi s = Ok s' -> state_word64 s'.
Proof.
  intros Hs Hrun x y Hx Hy.
  destruct (rhoPi_lanes s) as (t & Ht & Hlanes).
  rewrite Ht in Hrun. injection Hrun as <-.
  destruct (Hlanes x y Hx Hy) as (x' & y' & n & Hx' & Hy' & Hn & ->).
  apply rotl64_word; [apply Hs; assumption|exact Hn].
Qed.

Lemma chi_word64 (s s' : state) :
  state_word64 s -> chi s = Ok s' -> state_word64 s'.
Proof.
  intros Hs Hrun x y Hx Hy.
  destruct (chi_lanes s) as (t & Ht & Hlanes).
  rewrite Ht in Hrun. injection Hrun as <-.
  rewrite Hlanes by assumption.
  apply lxor_word64; [apply Hs; assumption|].
  apply land_word64. apply Hs; [apply Nat.mod_upper_bound; lia|assumption].
Qed.

Lemma iota_word64 (s s' : state) (round : nat) :
  state_word64 s -> iota s round = Ok s' -> state_word64 s'.
Proof.
  intros Hs Hrun x y Hx Hy. unfold iota in Hrun.
  destruct (index RC round) as [rc| |] eqn:Hrc; cbn [bind] in Hrun;
    try discriminate.
  rewrite get_lane in Hrun by lia. cbn [bind] in Hrun.
  rewrite set_put in Hrun by lia.
  injection Hrun as <-.
  destruct (Nat.eq_dec x 0) as [->|Hx0].
  - destruct (Nat.eq_dec y 0) as [->|Hy0].
    + rewrite lane_put_same by lia.
      apply lxor_word64; [apply Hs; lia|apply (RC_word64 round); exact Hrc].
    + rewrite lane_put_other_col by lia. apply Hs; lia.
  - rewrite lane_put_other_row by lia. apply Hs; lia.
Qed.

Lemma rounds_word64 (i n : nat) (s s' : state) :
  rounds i n s s' -> state_word64 s -> state_word64 s'.
Proof.
  induction 1 as [|i n s s1 s2 s3 s4 s' H1 H2 H3 H4 _ IH]; intros Hs.
  - exact Hs.
  - apply IH.
    apply (iota_word64 s3 s4 i); [|exact H4].
    apply (chi_word64 s2 s3); [|exact H3].
    apply (rhoPi_word64 s1 s2); [|exact H2].
    apply (theta_word64 s s1); [exact Hs|exact H1].
Qed.

(** X1: keccakF1600 keeps the lanes within 64 bits: on a state whose 25
    lanes are 64-bit values it returns a state whose 25 lanes are 64-bit
    values, so no operation of a round needs a wrap-around beyond the ones
    of the shifts. *)
Theorem keccakF1600_word64 (s : state) (Hs : state_word64 s) :
  exists s', keccakF1600 s = Ok s' /\ state_word64 s'.
Proof.
  destruct (rounds_run 24 0 s ltac:(lia)) as (s' & Hrun & Hrounds).
  exists s'. split; [exact Hrun|].
  apply (rounds_word64 0 24 s); assumption.
Qed.

Lemma keccakF1600_word64_witness :
  exists s', keccakF1600 new_state = Ok s' /\ state_word64 s'.
Proof.
  apply (keccakF1600_word64 new_state).
  intros x y Hx Hy. upto5 x; upto5 y; cbv; split; congruence.
Defined.

(** ** What rhoPi loses *)

Lemma rhoPi_put44 (s : state) (v : Z) : rhoPi (put s 4 4 v) = rhoPi s.
Proof. lanes s. run_step. reflexivity. Qed.

Lemma agree_but_44 (s t : state) :
  (forall x y, (x < 5)%nat -> (y < 5)%nat -> (x, y) <> (4%nat, 4%nat) ->
     lane s x y = lane t x y) ->
  s = put t 4 4 (lane s 4 4).
Proof.
  intros H. apply state_ext. intros x y Hx Hy.
  destruct (Nat.eq_dec x 4) as [->|Hx4].
  - destruct (Nat.eq_dec y 4) as [->|Hy4].
    + rewrite lane_put_same by lia. reflexivity.
    + rewrite lane_put_other_col by lia. apply H; [lia|lia|congruence].
  - rewrite lane_put_other_row by lia. apply H; [lia|lia|congruence].
Qed.

(** X2: rhoPi never reads the old value of lane (4,4) into its result: two
    states that agree on the 24 other lanes have the same rhoPi result,
    whatever their lanes (4,4) are.  (The loop saves the old lane in
    [current] and the last saved value is never stored.) *)
Theorem rhoPi_drops_lane44 (s t : state)
  (Hagree : forall x y, (x < 5)%nat -> (y < 5)%nat ->
              (x, y) <> (4%nat, 4%nat) -> lane s x y = lane t x y) :
  rhoPi s = rhoPi t.
Proof.
  rewrite (agree_but_44 s t Hagree). apply rhoPi_put44.
Qed.

Lemma rhoPi_drops_lane44_witness :
  rhoPi (put new_state 4 4 5) = rhoPi new_state.
Proof.
  apply rhoPi_drops_lane44.
  intros x y Hx Hy Hxy. upto5 x; upto5 y; solve [reflexivity | congruence].
Defined.

Lemma keccakF1600_after_theta (s1 s2 t1 t2 : state) :
  theta s1 = Ok t1 -> theta s2 = Ok t2 ->
  (forall x y, (x < 5)%nat -> (y < 5)%nat -> (x, y) <> (4%nat, 4%nat) ->
     lane t1 x y = lane t2 x y) ->
  keccakF1600 s1 = keccakF1600 s2.
Proof.
  intros H1 H2 Hagree. unfold keccakF1600.
  change 24%nat with (S 23). cbn [for_range].
  rewrite H1, H2. cbn [bind].
  rewrite (agree_but_44 t1 t2 Hagree), rhoPi_put44. reflexivity.
Qed.

Lemma lane_xor_states (s d : state) (x y : nat) :
  (x < 5)%nat -> (y < 5)%nat ->
  lane (xor_states s d) x y = Z.lxor (lane s x y) (lane d x y).
Proof. intros Hx Hy. lanes s. lanes d. upto5 x; upto5 y; reflexivity. Qed.

Lemma lxor_interchange (u v w z : Z) :
  Z.lxor (Z.lxor u v) (Z.lxor w z) = Z.lxor (Z.lxor u w) (Z.lxor v z).
Proof.
  rewrite !Z.lxor_assoc. f_equal.
  rewrite <- !Z.lxor_assoc. f_equal. apply Z.lxor_comm.
Qed.

Lemma column_parity_xor (s d : state) (x : nat) :
  (x < 5)%nat ->
  column_parity (xor_states s d) x =
  Z.lxor (column_parity s x) (column_parity d x).
Proof.
  intros Hx. unfold column_parity.
  rewrite !lane_xor_states by lia.
  apply Z.bits_inj'. intros i _.
  rewrite !Z.lxor_spec. btauto.
Qed.

Lemma rotl64_lxor (u v n : Z) :
  word64 u -> word64 v -> 0 <= n < 64 ->
  rotl64 (Z.lxor u v) n = Z.lxor (rotl64 u n) (rotl64 v n).
Proof.
  intros Hu Hv Hn.
  pose proof (lxor_word64 u v Hu Hv) as Huv.
  apply Z.bits_inj'. intros i Hi.
  destruct (Z_lt_le_dec i 64) as [Hlt|Hge].
  - rewrite Z.lxor_spec, !rotl64_bits by (auto; lia).
    apply Z.lxor_spec.
  - rewrite Z.lxor_spec.
    rewrite !(word64_high_bits (rotl64 _ n) i) by (auto using rotl64_word).
    reflexivity.
Qed.

Lemma theta_effect_xor (s d : state) (x : nat) :
  state_word64 s -> state_word64 d ->
  theta_effect (xor_states s d) x =
  Z.lxor (theta_effect s x) (theta_effect d x).
Proof.
  intros Hs Hd. unfold theta_effect.
  assert (H4 : ((x + 4) mod 5 < 5)%nat) by (apply Nat.mod_upper_bound; lia).
  assert (H1 : ((x + 1) mod 5 < 5)%nat) by (apply Nat.mod_upper_bound; lia).
  rewrite !column_parity_xor by assumption.
  rewrite rotl64_lxor by (try apply column_parity_word64; auto; lia).
  apply lxor_interchange.
Qed.

Lemma blind_spot_word64 : state_word64 blind_spot.
Proof. intros x y Hx Hy. upto5 x; upto5 y; cbv; split; congruence. Qed.

(** Theta maps [blind_spot] to a single bit in lane (4,4). *)
Lemma theta_blind_spot (x y : nat) :
  (x < 5)%nat -> (y < 5)%nat -> (x, y) <> (4%nat, 4%nat) ->
  Z.lxor (lane blind_spot x y) (theta_effect blind_spot x) = 0.
Proof.
  intros Hx Hy Hxy. upto5 x; upto5 y;
    solve [vm_compute; reflexivity | exfalso; apply Hxy; reflexivity].
Qed.

(** X3: keccakF1600 is not one-to-one.  XORing the fixed non-zero pattern
    [blind_spot] into any state of 64-bit lanes gives a different state
    with the same keccakF1600 result: theta turns the pattern into a
    difference confined to lane (4,4), which rhoPi drops. *)
Theorem keccakF1600_blind_spot (s : state) (Hs : state_word64 s) :
  xor_states s blind_spot <> s /\
  keccakF1600 (xor_states s blind_spot) = keccakF1600 s.
Proof.
  split.
  - intros Heq.
    pose proof (f_equal (fun t => lane t 0 0) Heq) as H00. cbv beta in H00.
    rewrite lane_xor_states in H00 by lia.
    apply (f_equal (Z.lxor (lane s 0 0))) in H00.
    rewrite <- Z.lxor_assoc, Z.lxor_nilpotent, Z.lxor_0_l in H00.
    vm_compute in H00. discriminate.
  - destruct (theta_lanes (xor_states s blind_spot)) as (t1 & H1 & L1).
    destruct (theta_lanes s) as (t2 & H2 & L2).
    apply (keccakF1600_after_theta _ _ t1 t2 H1 H2).
    intros x y Hx Hy Hxy.
    rewrite L1, L2 by assumption.
    rewrite lane_xor_states by assumption.
    rewrite theta_effect_xor by (auto using blind_spot_word64).
    rewrite lxor_interchange, theta_blind_spot by assumption.
    apply Z.lxor_0_r.
Qed.

Lemma keccakF1600_blind_spot_witness :
  blind_spot <> new_state /\ keccakF1600 blind_spot = keccakF1600 new_state.
Proof.
  assert (Hs : state_word64 new_state).
  { intros x y Hx Hy. upto5 x; upto5 y; cbv; split; congruence. }
  destruct (keccakF1600_blind_spot new_state Hs) as [Hne Heq].
  split; [exact Hne|exact Heq].
Defined.

(** ** Padding at any rate *)

(** For a positive rate the divisions of [pad] are those of the naturals
    and the buffer has at least one byte. *)
Lemma pad_positive_rate (m : list byte) (rate : Z) :
  0 < rate ->
  exists padding : list byte,
    pad m rate = Ok (m ++ padding) /\
    Z.of_nat (length padding) =
      (rate - (Z.of_nat (length m) * 8) mod rate + 7) / 8 /\
    ((length padding = 1%nat /\ padding = [x86]) \/
     ((2 <= length padding)%nat /\
      padding = x06 :: repeat x00 (length padding - 2) ++ [x80])).
Proof.
  intros Hrate.
  set (n := Z.of_nat (length m)).
  assert (Hn : 0 <= n) by (unfold n; lia).
  set (q := (n * 8) mod rate).
  assert (Hq : 0 <= q < rate) by (unfold q; apply Z.mod_pos_bound; lia).
  set (k := (rate - q + 7) / 8).
  assert (Hk : 1 <= k).
  { unfold k. apply Z.div_le_lower_bound; lia. }
  destruct (pad_buffer (Z.to_nat k) ltac:(lia))
    as (padding & Hrun & Hlen & Hshape).
  exists padding. split; [|split].
  - unfold pad.
    destruct (Z.eqb_spec rate 0) as [?|_]; [lia|].
    fold n. rewrite Z.rem_mod_nonneg by lia. fold q.
    destruct (Z.eqb_spec (rate - q) 0) as [?|_]; [lia|].
    rewrite Z.quot_div_nonneg by lia. fold k.
    destruct (Z.ltb_spec k 0) as [?|_]; [lia|].
    destruct (assign (repeat x00 (Z.to_nat k)) 0 x06)
      as [p1| |]; cbn [bind] in *; try discriminate.
    destruct (index p1 (length p1 - 1)) as [l1| |]; cbn [bind] in *;
      try discriminate.
    rewrite Hrun. reflexivity.
  - rewrite Hlen. lia.
  - rewrite Hlen. exact Hshape.
Qed.





(** A padding buffer: 0x86 alone, or 0x06, zeros, 0x80. *)
Lemma pad_shape_no_suffix (p p' l : list byte) (k k' : nat) :
  p = [x86] \/ p = x06 :: repeat x00 k ++ [x80] ->
  p' = [x86] \/ p' = x06 :: repeat x00 k' ++ [x80] ->
  p = l ++ p' -> l = [].
Proof.
  intros Hp Hp' Heq.
  destruct l as [|h t]; [reflexivity|exfalso].
  assert (Hhead : exists b rest, p' = b :: rest /\ (b = x86 \/ b = x06)).
  { destruct Hp' as [->| ->]; eauto. }
  destruct Hhead as (b & rest & -> & Hb).
  assert (Hin : In b (t ++ b :: rest)) by (apply in_or_app; right; left; reflexivity).
  destruct Hp as [->| ->]; cbn [app] in Heq; injection Heq as _ Heq.
  - destruct t; discriminate.
  - rewrite <- Heq in Hin. apply in_app_or in Hin.
    destruct Hin as [Hin|[Hin|[]]].
    + apply repeat_spec in Hin. subst b. destruct Hb; discriminate.
    + subst b. destruct Hb; discriminate.
Qed.

(** X6: pad is one-to-one: two messages with the same padded result, at
    whatever rates, are the same message.  The padding can always be
    stripped again, because its first byte (0x06 or 0x86) occurs nowhere
    later in it. *)
Theorem pad_injective (m1 m2 p : list byte) (rate1 rate2 : Z)
  (H1 : pad m1 rate1 = Ok p) (H2 : pad m2 rate2 = Ok p) :
  m1 = m2.
Proof.
  assert (Hshape : forall m rate, pad m rate = Ok p ->
            exists padding k, p = m ++ padding /\
              (padding = [x86] \/ padding = x06 :: repeat x00 k ++ [x80])).
  { intros m rate Hpad.
    destruct (Z_le_gt_dec rate 0) as [Hle|Hgt].
    - exfalso. unfold pad in Hpad.
      destruct (Z.eqb_spec rate 0) as [_|Hne]; [discriminate|].
      set (n8 := Z.of_nat (length m) * 8) in *.
      assert (Hn8 : 0 <= n8) by (unfold n8; lia).
      pose proof (Z.rem_nonneg n8 rate Hne Hn8) as Hr0.
      set (q := Z.rem n8 rate) in *.
      destruct (Z.eqb_spec (rate - q) 0) as [?|_]; [lia|].
      destruct (Z.ltb_spec (Z.quot (rate - q + 7) 8) 0) as [_|Hge];
        [discriminate|].
      assert (Hz : Z.quot (rate - q + 7) 8 = 0).
      { destruct (Z_lt_le_dec (rate - q + 7) 0) as [Hlt|Hnn].
        - pose proof (Z.quot_opp_l (rate - q + 7) 8 ltac:(lia)) as Hopp.
          assert (0 <= Z.quot (- (rate - q + 7)) 8)
            by (apply Z.quot_pos; lia).
          lia.
        - apply Z.quot_small. lia. }
      rewrite Hz in Hpad. discriminate.
    - destruct (pad_positive_rate m rate ltac:(lia))
        as (padding & Hp & _ & Hs).
      rewrite Hp in Hpad. injection Hpad as <-.
      exists padding, (length padding - 2)%nat. split; [reflexivity|].
      destruct Hs as [[_ ->]|[_ Hs]]; [left; reflexivity|right; exact Hs]. }
  destruct (Hshape m1 rate1 H1) as (p1 & k1 & E1 & S1).
  destruct (Hshape m2 rate2 H2) as (p2 & k2 & E2 & S2).
  rewrite E1 in E2.
  apply app_eq_app in E2. destruct E2 as (l & [[Hm Hp]|[Hm Hp]]).
  - rewrite (pad_shape_no_suffix p2 p1 l k2 k1 S2 S1 Hp) in Hm.
    rewrite app_nil_r in Hm. exact Hm.
  - rewrite (pad_shape_no_suffix p1 p2 l k1 k2 S1 S2 Hp) in Hm.
    rewrite app_nil_r in Hm. symmetry. exact Hm.
Qed.

Lemma pad_injective_witness : abc = [x61; x62; x63].
Proof.
  apply (pad_injective abc [x61; x62; x63]
           (abc ++ x06 :: repeat x00 131 ++ [x80]) 1088 1088);
    vm_compute; reflexivity.
Defined.

(** ** Bytes and lanes *)

Lemma Z_of_byte_of_Z (v : Z) : Z_of_byte (byte_of_Z v) = v mod 256.
Proof.
  unfold Z_of_byte, byte_of_Z.
  pose proof (Z.mod_pos_bound v 256 ltac:(lia)) as Hr.
  destruct (Byte.of_N (Z.to_N (v mod 256))) as [b|] eqn:Hb.
  - apply Byte.to_of_N in Hb. rewrite Hb. lia.
  - apply Byte.of_N_None_iff in Hb. lia.
Qed.

Lemma byte_of_Z_of_byte (b : byte) : byte_of_Z (Z_of_byte b) = b.
Proof.
  unfold byte_of_Z.
  rewrite Z.mod_small by (apply Z_of_byte_range).
  unfold Z_of_byte. rewrite N2Z.id, Byte.of_to_N. reflexivity.
Qed.

Lemma byte_of_Z_eq (v : Z) (b : byte) :
  v mod 256 = Z_of_byte b -> byte_of_Z v = b.
Proof.
  intros H. rewrite <- (byte_of_Z_of_byte b), <- H.
  unfold byte_of_Z. rewrite Z.mod_mod by lia. reflexivity.
Qed.

Lemma byte_bit_out (b : byte) (j : Z) :
  j < 0 \/ 8 <= j -> Z.testbit (Z_of_byte b) j = false.
Proof.
  intros [Hneg|Hhigh]; [apply Z.testbit_neg_r; exact Hneg|].
  pose proof (Z_of_byte_range b) as Hb.
  destruct (Z.eq_dec (Z_of_byte b) 0) as [->|Hne]; [apply Z.bits_0|].
  apply Z.bits_above_log2; [lia|].
  apply Z.lt_le_trans with 8; [|lia].
  apply Z.log2_lt_pow2; lia.
Qed.

Lemma put_lane (s : state) (x y : nat) : put s x y (lane s x y) = s.
Proof.
  lanes s.
  destruct x as [|[|[|[|[|?]]]]]; destruct y as [|[|[|[|[|?]]]]];
    reflexivity.
Qed.

Lemma xor_byte_zero (s : state) (j : nat) : xor_byte s j x00 = s.
Proof.
  unfold xor_byte.
  change (Z_of_byte x00) with 0.
  rewrite Z.shiftl_0_l, Z.lxor_0_r. apply put_lane.
Qed.

(** ** Absorbing a block at any offset of any slice *)

(** The guard of line 136 makes a block that runs past the end of the
    slice behave as if the missing bytes were zero. *)
Lemma absorb_block_any (p : list byte) (i : nat) (s : state) :
  absorb_block p i s = Ok (xor_block (firstn 136 (skipn i p)) s).
Proof.
  unfold absorb_block, xor_block.
  change block_bytes with 136%nat.
  apply (for_range_pure
           (fun j t => xor_byte t j (nth j (firstn 136 (skipn i p)) x00))).
  intros j t Hj.
  assert (Hnth : nth j (firstn 136 (skipn i p)) x00 = nth (i + j) p x00).
  { rewrite nth_firstn.
    destruct (Nat.ltb_spec j 136) as [_|?]; [|lia].
    apply nth_skipn. }
  rewrite Hnth.
  destruct (Nat.ltb_spec (i + j) (length p)) as [Hin|Hout].
  - unfold index. rewrite (nth_error_nth' p x00 Hin). cbn [bind].
    assert (Hx : (j / 8 mod 5 < 5)%nat) by (apply Nat.mod_upper_bound; lia).
    assert (Hy : (j / 8 / 5 < 5)%nat).
    { apply Nat.Div0.div_lt_upper_bound. apply Nat.Div0.div_lt_upper_bound.
      lia. }
    rewrite get_lane by assumption. cbn [bind].
    rewrite set_put by assumption.
    rewrite shl64_byte
      by (try apply Z_of_byte_range; apply Nat.mod_upper_bound; lia).
    reflexivity.
  - rewrite nth_overflow by lia. rewrite xor_byte_zero. reflexivity.
Qed.

Lemma xor_bytes_keep_lane (blk : list byte) (w : nat) (js : list nat)
  (s : state) :
  (forall j, In j js -> (j / 8 <> w)%nat) ->
  lane (fold_left (fun t j => xor_byte t j (nth j blk x00)) js s)
       (w mod 5) (w / 5) =
  lane s (w mod 5) (w / 5).
Proof.
  revert s. induction js as [|j js IH]; intros s Hjs; [reflexivity|].
  cbn [fold_left]. rewrite IH by (intros k Hk; apply Hjs; right; exact Hk).
  unfold xor_byte.
  destruct (Nat.eq_dec (j / 8 mod 5) (w mod 5)) as [Hmod|Hmod].
  - apply lane_put_other_col. intros Hdiv.
    apply (Hjs j (or_introl eq_refl)).
    rewrite (Nat.div_mod_eq (j / 8) 5), (Nat.div_mod_eq w 5).
    rewrite Hmod, Hdiv. reflexivity.
  - apply lane_put_other_row. exact Hmod.
Qed.

(** X7: whatever the slice and the offset, absorbing a block returns a
    state (the guard keeps every read inside the slice) and leaves the
    eight capacity lanes, word indices 17 to 24, as they were: input bytes
    only ever reach the 17 lanes of the rate. *)
Theorem absorb_block_keeps_capacity (p : list byte) (i : nat) (s : state) :
  exists s', absorb_block p i s = Ok s' /\
    forall w, (17 <= w < 25)%nat ->
      lane s' (w mod 5) (w / 5) = lane s (w mod 5) (w / 5).
Proof.
  eexists. split; [apply absorb_block_any|].
  intros w Hw. unfold xor_block.
  apply xor_bytes_keep_lane.
  intros j Hj. apply in_seq in Hj.
  assert (j / 8 < 17)%nat by (apply Nat.Div0.div_lt_upper_bound; lia).
  lia.
Qed.

Lemma absorb_block_keeps_capacity_witness :
  exists s', absorb_block abc 1 probe = Ok s' /\ lane s' 4 4 = 0 /\
             lane s' 2 3 = 0.
Proof.
  destruct (absorb_block_keeps_capacity abc 1 probe) as (s' & Hs & Hcap).
  exists s'. split; [exact Hs|].
  split.
  - apply (Hcap 24%nat). lia.
  - apply (Hcap 17%nat). lia.
Defined.

(** ** Byte order: absorbing against squeezing *)

(** Eight bytes packed into a lane the way the absorbing loop packs them. *)
Lemma lane_byte_packed (c0 c1 c2 c3 c4 c5 c6 c7 : byte) (i : nat) :
  (i < 8)%nat ->
  lane_byte
    (Z.lxor (Z.lxor (Z.lxor (Z.lxor (Z.lxor (Z.lxor (Z.lxor (Z.lxor 0
       (Z.shiftl (Z_of_byte c0) 0)) (Z.shiftl (Z_of_byte c1) 8))
       (Z.shiftl (Z_of_byte c2) 16)) (Z.shiftl (Z_of_byte c3) 24))
       (Z.shiftl (Z_of_byte c4) 32)) (Z.shiftl (Z_of_byte c5) 40))
       (Z.shiftl (Z_of_byte c6) 48)) (Z.shiftl (Z_of_byte c7) 56)) i =
  nth i [c0; c1; c2; c3; c4; c5; c6; c7] x00.
Proof.
  intros Hi. unfold lane_byte. apply byte_of_Z_eq.
  change 256 with (2 ^ 8).
  apply Z.bits_inj'. intros n Hn.
  destruct (Z_lt_le_dec n 8) as [Hlow|Hhigh].
  - rewrite Z.mod_pow2_bits_low by lia.
    rewrite Z.shiftr_spec by lia.
    rewrite !Z.lxor_spec, Z.bits_0, !Z.shiftl_spec by lia.
    do 8 (destruct i as [|i]; [
      cbn [nth Z.of_nat Pos.of_succ_nat Pos.succ Z.mul Pos.mul Pos.add];
      repeat match goal with
             | |- context [Z.testbit (Z_of_byte ?c) ?j] =>
                 rewrite (byte_bit_out c j) by lia
             end;
      rewrite ?xorb_false_l, ?xorb_false_r; f_equal; lia |]).
    exfalso; lia.
  - rewrite Z.mod_pow2_bits_high by lia.
    symmetry. apply byte_bit_out. right. exact Hhigh.
Qed.

Lemma digest_of_first_block (p : list byte) :
  (32 <= length p)%nat ->
  digest_of (xor_block (firstn 136 (skipn 0 p)) new_state) = firstn 32 p.
Proof.
  intros Hlen.
  do 32 (destruct p as [|? p]; [cbn [length] in Hlen; exfalso; lia|]).
  clear Hlen.
  cbv -[Z.lxor Z.shiftl Z_of_byte lane_byte].
  repeat (f_equal;
          try (match goal with
               | |- lane_byte (Z.lxor (Z.lxor (Z.lxor (Z.lxor (Z.lxor (Z.lxor
                      (Z.lxor (Z.lxor 0 (Z.shiftl (Z_of_byte ?c0) 0))
                      (Z.shiftl (Z_of_byte ?c1) 8))
                      (Z.shiftl (Z_of_byte ?c2) 16))
                      (Z.shiftl (Z_of_byte ?c3) 24))
                      (Z.shiftl (Z_of_byte ?c4) 32))
                      (Z.shiftl (Z_of_byte ?c5) 40))
                      (Z.shiftl (Z_of_byte ?c6) 48))
                      (Z.shiftl (Z_of_byte ?c7) 56)) ?i = _ =>
                   exact (lane_byte_packed c0 c1 c2 c3 c4 c5 c6 c7 i
                            ltac:(lia))
               end)).
Qed.

(** X8: absorbing and squeezing use the same byte order.  XORing the
    first block of a slice of at least 32 bytes into the zero state and
    squeezing that state, with no permutation in between, gives back the
    first 32 bytes of the slice. *)
Theorem absorb_then_squeeze (p : list byte) (Hlen : (32 <= length p)%nat) :
  exists s, absorb_block p 0 new_state = Ok s /\
            squeeze 32 s (repeat x00 32) 0 0 = Ok (firstn 32 p).
Proof.
  eexists. split; [apply absorb_block_any|].
  rewrite squeeze_reads. f_equal.
  apply digest_of_first_block. exact Hlen.
Qed.

Lemma absorb_then_squeeze_witness :
  exists s, absorb_block (repeat xa5 40) 0 new_state = Ok s /\
            squeeze 32 s (repeat x00 32) 0 0 = Ok (repeat xa5 32).
Proof.
  apply (absorb_then_squeeze (repeat xa5 40)). cbn [repeat length]. lia.
Defined.

Lemma lane_bytes_inj (u v : Z) :
  word64 u -> word64 v ->
  (forall i, (i < 8)%nat -> lane_byte u i = lane_byte v i) -> u = v.
Proof.
  intros Hu Hv H. apply Z.bits_inj'. intros n Hn.
  destruct (Z_lt_le_dec n 64) as [Hlt|Hge].
  - assert (Hi : (Z.to_nat (n / 8) < 8)%nat).
    { assert (n / 8 < 8) by (apply Z.div_lt_upper_bound; lia).
      assert (0 <= n / 8) by (apply Z.div_pos; lia). lia. }
    pose proof (H _ Hi) as Hb. unfold lane_byte in Hb.
    apply (f_equal Z_of_byte) in Hb. rewrite !Z_of_byte_of_Z in Hb.
    rewrite Z2Nat.id in Hb by (apply Z.div_pos; lia).
    pose proof (Z.div_mod n 8 ltac:(lia)) as Hdm.
    pose proof (Z.mod_pos_bound n 8 ltac:(lia)) as Hk.
    apply (f_equal (fun z => Z.testbit z (n mod 8))) in Hb. cbv beta in Hb.
    change 256 with (2 ^ 8) in Hb.
    rewrite !Z.mod_pow2_bits_low, !Z.shiftr_spec in Hb by lia.
    replace (n mod 8 + 8 * (n / 8)) with n in Hb by lia.
    exact Hb.
  - rewrite (word64_high_bits u n Hu Hge), (word64_high_bits v n Hv Hge).
    reflexivity.
Qed.

(** X9: the digest is a lossless reading of lanes (0,0), (1,0), (2,0) and
    (3,0) and of nothing else: two states of 64-bit lanes squeeze to the
    same 32 bytes exactly when they agree on these four lanes. *)
Theorem squeeze_reads_four_lanes (s t : state)
  (Hs : state_word64 s) (Ht : state_word64 t) :
  squeeze 32 s (repeat x00 32) 0 0 = squeeze 32 t (repeat x00 32) 0 0 <->
  (lane s 0 0 = lane t 0 0 /\ lane s 1 0 = lane t 1 0 /\
   lane s 2 0 = lane t 2 0 /\ lane s 3 0 = lane t 3 0).
Proof.
  rewrite !squeeze_reads. unfold digest_of.
  cbv [seq flat_map map app Nat.modulo Nat.div Nat.divmod fst snd Nat.sub].
  split.
  - intros H. injection H. intros.
    repeat split;
      (apply lane_bytes_inj; [apply Hs; lia|apply Ht; lia|];
       intros i Hi; do 8 (destruct i as [|i]; [assumption|]);
       exfalso; lia).
  - intros (H0 & H1 & H2 & H3). rewrite H0, H1, H2, H3. reflexivity.
Qed.

Lemma squeeze_reads_four_lanes_witness :
  squeeze 32 (put new_state 4 4 7) (repeat x00 32) 0 0 =
  squeeze 32 new_state (repeat x00 32) 0 0.
Proof.
  apply squeeze_reads_four_lanes.
  - intros x y Hx Hy. upto5 x; upto5 y; cbv; split; congruence.
  - intros x y Hx Hy. upto5 x; upto5 y; cbv; split; congruence.
  - repeat split; reflexivity.
Defined.

(** ** rotl64 beyond the offsets of the table *)

Lemma rotl64_zero (x : Z) : word64 x -> rotl64 x 0 = x.
Proof.
  intros Hx. apply Z.bits_inj'. intros i Hi.
  destruct (Z_lt_le_dec i 64) as [Hlt|Hge].
  - rewrite rotl64_bits by (auto; lia).
    rewrite Z.sub_0_r, Z.mod_small by lia. reflexivity.
  - rewrite (word64_high_bits x i Hx Hge).
    apply word64_high_bits; [|exact Hge].
    apply rotl64_word; [exact Hx|lia].
Qed.

Lemma rotl64_count_64 (x : Z) : rotl64 x (64 - 0) = x.
Proof.
  unfold rotl64, to_uint, shl64, shr64.
  change ((64 - 0) mod 2 ^ 64) with 64.
  change ((64 - (64 - 0)) mod 2 ^ 64) with 0.
  change (64 <=? 64) with true. change (64 <=? 0) with false.
  rewrite Z.shiftr_0_r. apply Z.lor_0_l.
Qed.

(** X10: rotl64 does not reduce its count modulo 64.  For a count within
    the range of a 64-bit [int]: a count of 64 returns the value
    unchanged, a negative count or a count above 64 returns 0, because
    both shift counts are then 64 or more. *)
Theorem rotl64_count_out_of_range (x y : Z)
  (Hy : - 2 ^ 63 <= y < 2 ^ 63) :
  (y = 64 -> rotl64 x y = x) /\
  (y < 0 \/ 64 < y -> rotl64 x y = 0).
Proof.
  unfold rotl64, to_uint, shl64, shr64. split.
  - intros ->. change (64 mod 2 ^ 64) with 64.
    change ((64 - 64) mod 2 ^ 64) with 0.
    change (64 <=? 64) with true. change (64 <=? 0) with false.
    rewrite Z.shiftr_0_r. apply Z.lor_0_l.
  - intros Hout.
    assert (H1 : 64 <= y mod 2 ^ 64).
    { destruct Hout as [Hneg|Hbig].
      - replace (y mod 2 ^ 64) with (y + 2 ^ 64)
          by (apply Z.mod_unique with (-1); lia).
        lia.
      - rewrite Z.mod_small by lia. lia. }
    assert (H2 : 64 <= (64 - y) mod 2 ^ 64).
    { destruct Hout as [Hneg|Hbig].
      - rewrite Z.mod_small by lia. lia.
      - replace ((64 - y) mod 2 ^ 64) with (64 - y + 2 ^ 64)
          by (apply Z.mod_unique with (-1); lia).
        lia. }
    destruct (Z.leb_spec 64 (y mod 2 ^ 64)) as [_|?]; [|lia].
    destruct (Z.leb_spec 64 ((64 - y) mod 2 ^ 64)) as [_|?]; [|lia].
    reflexivity.
Qed.

Lemma rotl64_count_out_of_range_witness :
  rotl64 5 64 = 5 /\ rotl64 5 (-1) = 0 /\ rotl64 5 65 = 0.
Proof.
  split; [|split].
  - apply (rotl64_count_out_of_range 5 64); lia.
  - apply (rotl64_count_out_of_range 5 (-1)); lia.
  - apply (rotl64_count_out_of_range 5 65); lia.
Defined.

(** X11: on 64-bit values and counts in [0,64), rotations compose by
    adding the counts modulo 64, and rotating by [n] and then by
    [64 - n] gives the value back (for [n = 0] the second count is 64). *)
Theorem rotl64_compose (x a b : Z)
  (Hx : word64 x) (Ha : 0 <= a < 64) (Hb : 0 <= b < 64) :
  rotl64 (rotl64 x a) b = rotl64 x ((a + b) mod 64) /\
  rotl64 (rotl64 x a) (64 - a) = x.
Proof.
  assert (Hcomp : forall c, 0 <= c < 64 ->
            rotl64 (rotl64 x a) c = rotl64 x ((a + c) mod 64)).
  { intros c Hc.
    pose proof (rotl64_word x a Hx Ha) as Hxa.
    pose proof (Z.mod_pos_bound (a + c) 64 ltac:(lia)) as Hab.
    apply Z.bits_inj'. intros i Hi.
    destruct (Z_lt_le_dec i 64) as [Hlt|Hge].
    - pose proof (Z.mod_pos_bound (i - c) 64 ltac:(lia)) as Hic.
      rewrite (rotl64_bits (rotl64 x a) c i) by (auto; lia).
      rewrite (rotl64_bits x a) by (auto; lia).
      rewrite (rotl64_bits x ((a + c) mod 64) i) by (auto; lia).
      f_equal.
      rewrite Zminus_mod_idemp_l, Zminus_mod_idemp_r.
      f_equal. lia.
    - rewrite !(word64_high_bits (rotl64 _ _) i)
        by (auto using rotl64_word). reflexivity. }
  split; [apply Hcomp; exact Hb|].
  destruct (Z.eq_dec a 0) as [->|Hne].
  - rewrite rotl64_zero by exact Hx.
    apply (rotl64_count_64 x).
  - rewrite Hcomp by lia.
    replace (a + (64 - a)) with 64 by lia.
    change (64 mod 64) with 0. apply rotl64_zero. exact Hx.
Qed.

Lemma rotl64_compose_witness :
  rotl64 (rotl64 0x8000000000000001 3) 62 = rotl64 0x8000000000000001 1 /\
  rotl64 (rotl64 0x8000000000000001 3) 61 = 0x8000000000000001.
Proof.
  apply (rotl64_compose 0x8000000000000001 3 62); unfold word64; lia.
Defined.

(** ** More on the step mappings *)

Lemma put_put (s : state) (x y : nat) (v w : Z) :
  put (put s x y v) x y w = put s x y w.
Proof.
  lanes s.
  destruct x as [|[|[|[|[|?]]]]]; destruct y as [|[|[|[|[|?]]]]];
    reflexivity.
Qed.

(** X13: iota undoes itself: for a round index below 24, applying iota
    twice with the same index returns the state it started from. *)
Theorem iota_twice (s : state) (round : nat) (Hround : (round < 24)%nat) :
  exists s1, iota s round = Ok s1 /\ iota s1 round = Ok s.
Proof.
  unfold iota.
  destruct (index RC round) as [rc| |] eqn:Hrc.
  - cbn [bind]. rewrite get_lane by lia. cbn [bind].
    rewrite set_put by lia. eexists. split; [reflexivity|].
    rewrite get_lane by lia. cbn [bind]. rewrite set_put by lia.
    rewrite lane_put_same by lia.
    rewrite put_put, Z.lxor_assoc, Z.lxor_nilpotent, Z.lxor_0_r, put_lane.
    reflexivity.
  - exfalso. unfold index in Hrc.
    destruct (nth_error RC round) eqn:Hnth; [discriminate|].
    apply nth_error_None in Hnth. cbn [RC length] in Hnth. lia.
  - exfalso. unfold index in Hrc.
    destruct (nth_error RC round); discriminate.
Qed.

Lemma iota_twice_witness :
  exists s1, iota probe 5 = Ok s1 /\ iota s1 5 = Ok probe.
Proof. apply (iota_twice probe 5). lia. Defined.

(** X14: theta is linear over XOR on states of 64-bit lanes: the result on
    the lane-wise XOR of two states is the lane-wise XOR of the two
    results. *)
Theorem theta_linear (s d : state)
  (Hs : state_word64 s) (Hd : state_word64 d) :
  exists s' d', theta s = Ok s' /\ theta d = Ok d' /\
    theta (xor_states s d) = Ok (xor_states s' d').
Proof.
  destruct (theta_lanes s) as (s' & Hs' & Ls).
  destruct (theta_lanes d) as (d' & Hd' & Ld).
  destruct (theta_lanes (xor_states s d)) as (t & Ht & Lt).
  exists s', d'. split; [exact Hs'|]. split; [exact Hd'|].
  rewrite Ht. f_equal. apply state_ext. intros x y Hx Hy.
  rewrite Lt, !lane_xor_states, Ls, Ld by assumption.
  rewrite theta_effect_xor by assumption.
  apply lxor_interchange.
Qed.

Lemma theta_linear_witness :
  exists s' d', theta probe = Ok s' /\ theta blind_spot = Ok d' /\
    theta (xor_states probe blind_spot) = Ok (xor_states s' d').
Proof.
  apply (theta_linear probe blind_spot).
  - intros x y Hx Hy. upto5 x; upto5 y; cbv; split; congruence.
  - intros x y Hx Hy. upto5 x; upto5 y; cbv; split; congruence.
Defined.

(** ** The number of blocks *)

(** X15: sha3_256 absorbs exactly [len m / 136 + 1] blocks, that is, runs
    keccakF1600 that many times: the padded message has
    [136 * (len m / 136 + 1)] bytes, one block more than the message
    fills, also when its length is a multiple of 136. *)
Theorem sha3_256_block_count (m : list byte) :
  exists p : list byte,
    pad m RATE = Ok p /\
    length p = (136 * (length m / 136 + 1))%nat /\
    length (blocks_from p 0 (length m / 136 + 1)) = (length m / 136 + 1)%nat /\
    absorbed m = absorb_blocks (blocks_from p 0 (length m / 136 + 1)) new_state.
Proof.
  destruct (pad_rate_shape m) as (padding & Hpad & Hlen & _).
  exists (m ++ padding).
  assert (Hp : length (m ++ padding) = (136 * (length m / 136 + 1))%nat).
  { rewrite length_app.
    pose proof (Nat.div_mod_eq (length m) 136) as Hdm.
    pose proof (Nat.mod_upper_bound (length m) 136 ltac:(lia)).
    assert (Hmod : Z.of_nat (length m) mod 136 = Z.of_nat (length m mod 136))
      by (rewrite Nat2Z.inj_mod; reflexivity).
    lia. }
  split; [exact Hpad|]. split; [exact Hp|]. split.
  - unfold blocks_from. rewrite length_map, length_seq. reflexivity.
  - unfold absorbed. change RATE with 1088. rewrite Hpad. cbn [bind].
    apply (absorb_run _ (length m / 136 + 1) 0).
    + change block_bytes with 136%nat. lia.
    + lia.
Qed.

Lemma rhoPi_loop_order_witness :
  exists s', rhoPi (put probe 1 0 3) = Ok s' /\
    lane s' 0 0 = 3 /\ lane s' 0 1 = 2 ^ 36 /\ lane s' 1 1 = 3 * 2 ^ 44.
Proof.
  destruct (rhoPi_loop_order (put probe 1 0 3)) as (s' & Hs & H00 & Hk).
  exists s'. split; [exact Hs|].
  split; [rewrite H00; reflexivity|].
  split.
  - exact (Hk 1%nat ltac:(lia)).
  - exact (Hk 6%nat ltac:(lia)).
Defined.
